(** * Constellation: secret provisioning (join service) and recovery

    A shallow embedding of
    - [joinservice/internal/server/server.go] (IssueJoinTicket,
      IssueRejoinTicket, getK8sComponentsConfigMapName), and
    - [cli/internal/cmd/recover_test.go] (stubDoer and the assertions
      of TestRecover),
    together with a model of the recovery loop the tests exercise. *)

From Stdlib Require Import String Ascii List Bool Arith Lia.
From Stdlib Require Import Strings.Byte.
From Stdlib Require Import DecimalString.
Import ListNotations.
Open Scope string_scope.

(** ** Go values: byte slices, errors, gRPC status codes, panics *)

Module Go.

Definition bytes := list byte.

(** [google.golang.org/grpc/codes]. *)
Inductive Code :=
| OK | Canceled | Unknown | InvalidArgument | DeadlineExceeded | NotFound
| AlreadyExists | PermissionDenied | ResourceExhausted | FailedPrecondition
| Aborted | OutOfRange | Unimplemented | Internal | Unavailable | DataLoss
| Unauthenticated.

Definition Code_eqb (a b : Code) : bool :=
  match a, b with
  | OK, OK | Canceled, Canceled | Unknown, Unknown
  | InvalidArgument, InvalidArgument | DeadlineExceeded, DeadlineExceeded
  | NotFound, NotFound | AlreadyExists, AlreadyExists
  | PermissionDenied, PermissionDenied
  | ResourceExhausted, ResourceExhausted
  | FailedPrecondition, FailedPrecondition | Aborted, Aborted
  | OutOfRange, OutOfRange | Unimplemented, Unimplemented
  | Internal, Internal | Unavailable, Unavailable | DataLoss, DataLoss
  | Unauthenticated, Unauthenticated => true
  | _, _ => false
  end.

Definition Code_String (c : Code) : string :=
  match c with
  | OK => "OK" | Canceled => "Canceled" | Unknown => "Unknown"
  | InvalidArgument => "InvalidArgument"
  | DeadlineExceeded => "DeadlineExceeded" | NotFound => "NotFound"
  | AlreadyExists => "AlreadyExists"
  | PermissionDenied => "PermissionDenied"
  | ResourceExhausted => "ResourceExhausted"
  | FailedPrecondition => "FailedPrecondition" | Aborted => "Aborted"
  | OutOfRange => "OutOfRange" | Unimplemented => "Unimplemented"
  | Internal => "Internal" | Unavailable => "Unavailable"
  | DataLoss => "DataLoss" | Unauthenticated => "Unauthenticated"
  end.

(** The error values the two files build: [errors.New], [fmt.Errorf] with
    [%w], and [status.Error]/[status.Errorf]. *)
Inductive error :=
| errorString (s : string)
| wrapError (msg : string) (inner : error)
| statusError (c : Code) (msg : string).

Definition Error (e : error) : string :=
  match e with
  | errorString s => s
  | wrapError msg _ => msg
  | statusError c msg =>
      "rpc error: code = " ++ Code_String c ++ " desc = " ++ msg
  end.

(** [status.Errorf(c, prefix + "%s", err)]. *)
Definition status_Errorf (c : Code) (prefix : string) (err : error) : error :=
  statusError c (prefix ++ Error err).

(** [fmt.Errorf(prefix + "%w", err)]. *)
Definition fmt_Errorf_w (prefix : string) (err : error) : error :=
  wrapError (prefix ++ Error err) err.

(** What a Go call does: it returns, or it panics. *)
Inductive Exec (A : Type) :=
| Returned (a : A)
| Panicked (reason : string).
Arguments Returned {A} a.
Arguments Panicked {A} reason.

(** [strconv.Itoa] on a non-negative int. *)
Definition Itoa (n : nat) : string := NilEmpty.string_of_uint (Nat.to_uint n).

(** [strings.HasPrefix(s, p)]. *)
Definition HasPrefix (s p : string) : bool := String.prefix p s.

(** [strings.Contains(s, sub)]. *)
Fixpoint Contains (s sub : string) : bool :=
  HasPrefix s sub ||
  match s with
  | EmptyString => false
  | String _ s' => Contains s' sub
  end.

(** [strings.Split(s, sep)] for a one-byte separator: the pieces between
    the separators, one piece more than there are separators. *)
Fixpoint Split_aux (sep : ascii) (cur : string) (s : string) : list string :=
  match s with
  | EmptyString => [cur]
  | String c s' =>
      if Ascii.eqb c sep then cur :: Split_aux sep EmptyString s'
      else Split_aux sep (cur ++ String c EmptyString) s'
  end.

Definition Split (s : string) (sep : ascii) : list string :=
  Split_aux sep EmptyString s.

End Go.
Import Go.

(** ** The join service: [joinservice/internal/server/server.go] *)

Module JoinService.

(** What [server.go] imports from other packages and does not define:
    the opaque types of [golang.org/x/crypto/ssh] and of
    [internal/versions/components], the constants of [internal/attestation],
    [internal/constants] and [internal/crypto], and the library functions the
    handlers call.  A Go call returning [(T, error)] is a pair whose second
    component is [None] for a nil error. *)
Class Externals := {
  Signer : Type;
  PublicKey : Type;
  Certificate : Type;
  Components : Type;
  MeasurementSecretContext : string;
  DerivedKeyLengthDefault : nat;
  StateDiskKeyLength : nat;
  SSHCAKeySuffix : string;
  SSHAdditionalPrincipalsPath : string;
  KubernetesJoinTokenTTL : nat;
  NodeVersionResourceName : string;
  GenerateEmergencySSHCAKey : bytes -> Signer * option error;
  GenerateSSHHostCertificate :
    list string -> PublicKey -> Signer -> Certificate * option error;
  ParsePublicKey : bytes -> PublicKey * option error;
  Signer_PublicKey : Signer -> PublicKey;
  Certificate_PublicKey : Certificate -> PublicKey;
  MarshalAuthorizedKey : PublicKey -> bytes
}.

(** [ed25519.SeedSize]. *)
Definition ed25519_SeedSize : nat := 32.

(** [kubeadmv1.BootstrapTokenDiscovery]. *)
Record BootstrapTokenDiscovery := {
  Token : string;
  APIServerEndpoint : string;
  CACertHashes : list string;
  UnsafeSkipCAVerification : bool
}.

(** [joinproto.IssueJoinTicketRequest]. *)
Record IssueJoinTicketRequest := {
  DiskUuid : string;
  CertificateRequest : bytes;
  IsControlPlane : bool;
  HostPublicKey : bytes;
  HostCertificatePrincipals : list string
}.

(** [joinproto.ControlPlaneCertOrKey]. *)
Record ControlPlaneCertOrKey := {
  Name : string;
  Data : bytes
}.

(** [joinproto.IssueJoinTicketResponse]; its field [Token] is [JoinToken]
    here, the handler leaves [KubernetesVersion] at its zero value. *)
Record IssueJoinTicketResponse `{Externals} := {
  StateDiskKey : bytes;
  MeasurementSalt : bytes;
  MeasurementSecret : bytes;
  KubeletCert : bytes;
  ApiServerEndpoint : string;
  JoinToken : string;
  DiscoveryTokenCaCertHash : string;
  ControlPlaneFiles : list ControlPlaneCertOrKey;
  KubernetesVersion : string;
  KubernetesComponents : Components;
  AuthorizedCaPublicKey : bytes;
  HostCertificate : bytes
}.

(** [joinproto.IssueRejoinTicketRequest], field [DiskUuid]. *)
Record IssueRejoinTicketRequest := {
  RejoinDiskUuid : string
}.

(** [joinproto.IssueRejoinTicketResponse], fields [StateDiskKey] and
    [MeasurementSecret]. *)
Record IssueRejoinTicketResponse := {
  RejoinStateDiskKey : bytes;
  RejoinMeasurementSecret : bytes
}.

(** The [Server] struct.  Its interface-typed fields ([joinTokenGetter],
    [dataKeyGetter], [certificateAuthority], [kubeClient]) and the
    [file.Handler] are given by their methods; the logger is left out, no
    branch of the handlers reads it.  [GetJoinToken] returns a pointer,
    [None] is the nil pointer.  [GetControlPlaneCertificatesAndKeys]
    returns a Go map, given as its entries in the order the handler's
    [range] statement visits them. *)
Record Server `{Externals} := {
  measurementSalt : bytes;
  GetJoinToken : nat -> option BootstrapTokenDiscovery * option error;
  GetControlPlaneCertificatesAndKeys :
    list (string * bytes) * option error;
  GetDataKey : string -> nat -> bytes * option error;
  GetCertificate : bytes -> bytes * option error;
  GetNodeNameFromCSR : bytes -> string * option error;
  GetK8sComponentsRefFromNodeVersionCRD : string -> string * option error;
  GetComponents : string -> Components * option error;
  AddNodeToJoiningNodes : string -> string -> bool -> option error;
  fileHandler_Read : string -> bytes * option error
}.

(** The calls a handler makes that can fail, with their arguments. *)
Inductive Call :=
| CallGetDataKey (uuid : string) (length : nat)
| CallGenerateEmergencySSHCAKey
| CallFileRead (path : string)
| CallParsePublicKey
| CallGenerateSSHHostCertificate (principals : list string)
| CallGetJoinToken (ttl : nat)
| CallGetK8sComponentsRef (resource : string)
| CallGetComponents (configMapName : string)
| CallGetCertificate
| CallGetControlPlaneCertificatesAndKeys
| CallGetNodeNameFromCSR
| CallAddNodeToJoiningNodes (nodeName componentsHash : string)
    (isControlPlane : bool).

(** One entry of a handler's history: the call and the error it returned. *)
Record Event := {
  call : Call;
  err : option error
}.

(** A handler's control flow: it goes on with a value, returns early with
    an error, or panics. *)
Inductive Step (A : Type) :=
| Continue (a : A)
| Abort (e : error)
| Crash (reason : string).
Arguments Continue {A} a.
Arguments Abort {A} e.
Arguments Crash {A} reason.

(** Handlers thread the history of their calls. *)
Definition M (A : Type) : Type := list Event -> list Event * Step A.

Definition ret {A} (a : A) : M A := fun tr => (tr, Continue a).

Definition bind {A B} (m : M A) (k : A -> M B) : M B :=
  fun tr =>
    match m tr with
    | (tr', Continue a) => k a tr'
    | (tr', Abort e) => (tr', Abort e)
    | (tr', Crash r) => (tr', Crash r)
    end.

Notation "x <- m ;; k" := (bind m (fun x => k))
  (at level 61, m at next level, right associativity).

(** [v, err := f(args)]: the call is made and recorded. *)
Definition invoke {A} (c : Call) (r : A * option error) : M (A * option error) :=
  fun tr => ((tr ++ [{| call := c; err := snd r |}])%list, Continue r).

(** [if err != nil { return nil, status.Errorf(codes.Internal, prefix, err) }]. *)
Definition orInternal {A} (r : A * option error) (prefix : string) : M A :=
  fun tr =>
    match snd r with
    | Some e => (tr, Abort (status_Errorf Internal prefix e))
    | None => (tr, Continue (fst r))
    end.

Definition panic {A} (reason : string) : M A := fun tr => (tr, Crash reason).

Section Handlers.
Context `{Externals}.

Definition getK8sComponentsConfigMapName (s : Server) : M (string * option error) :=
  r <- invoke (CallGetK8sComponentsRef NodeVersionResourceName)
         (GetK8sComponentsRefFromNodeVersionCRD s NodeVersionResourceName) ;;
  match snd r with
  | Some e =>
      ret ("", Some (fmt_Errorf_w
                       "could not get k8s components config map name: " e))
  | None => ret (fst r, None)
  end.

(** [for k, v := range filesMap { controlPlaneFiles = append(...) }]. *)
Definition filesOfMap (filesMap : list (string * bytes)) : list ControlPlaneCertOrKey :=
  map (fun kv => {| Name := fst kv; Data := snd kv |}) filesMap.

Definition loadControlPlaneFiles (s : Server) (req : IssueJoinTicketRequest)
  : M (list ControlPlaneCertOrKey) :=
  if IsControlPlane req then
    r <- invoke CallGetControlPlaneCertificatesAndKeys
           (GetControlPlaneCertificatesAndKeys s) ;;
    filesMap <- orInternal r "loading control-plane certificates and keys: " ;;
    ret (filesOfMap filesMap)
  else ret [].

(** The composite literal of the response: its fields are evaluated in
    order, [kubeArgs.APIServerEndpoint] dereferences the pointer and
    [kubeArgs.CACertHashes[0]] indexes the slice. *)
Definition buildResponse (s : Server)
    (stateDiskKey measurementSecret : bytes)
    (kubeArgs : option BootstrapTokenDiscovery) (kubeletCert : bytes)
    (controlPlaneFiles : list ControlPlaneCertOrKey) (components : Components)
    (ca : Signer) (hostCertificate : Certificate)
  : M IssueJoinTicketResponse :=
  match kubeArgs with
  | None => panic "invalid memory address or nil pointer dereference"
  | Some args =>
      match CACertHashes args with
      | [] => panic "index out of range [0] with length 0"
      | hash0 :: _ =>
          ret {| StateDiskKey := stateDiskKey;
                 MeasurementSalt := measurementSalt s;
                 MeasurementSecret := measurementSecret;
                 ApiServerEndpoint := APIServerEndpoint args;
                 JoinToken := Token args;
                 DiscoveryTokenCaCertHash := hash0;
                 KubeletCert := kubeletCert;
                 ControlPlaneFiles := controlPlaneFiles;
                 KubernetesVersion := "";
                 KubernetesComponents := components;
                 AuthorizedCaPublicKey :=
                   MarshalAuthorizedKey (Signer_PublicKey ca);
                 HostCertificate :=
                   MarshalAuthorizedKey (Certificate_PublicKey hostCertificate) |}
      end
  end.

Definition IssueJoinTicket_body (s : Server) (req : IssueJoinTicketRequest)
  : M IssueJoinTicketResponse :=
  r <- invoke (CallGetDataKey MeasurementSecretContext DerivedKeyLengthDefault)
         (GetDataKey s MeasurementSecretContext DerivedKeyLengthDefault) ;;
  measurementSecret <- orInternal r "getting measurement secret: " ;;
  r <- invoke (CallGetDataKey (DiskUuid req) StateDiskKeyLength)
         (GetDataKey s (DiskUuid req) StateDiskKeyLength) ;;
  stateDiskKey <- orInternal r "getting key for stateful disk: " ;;
  r <- invoke (CallGetDataKey SSHCAKeySuffix ed25519_SeedSize)
         (GetDataKey s SSHCAKeySuffix ed25519_SeedSize) ;;
  sshCAKeySeed <- orInternal r "getting emergency SSH CA seed material: " ;;
  r <- invoke CallGenerateEmergencySSHCAKey
         (GenerateEmergencySSHCAKey sshCAKeySeed) ;;
  ca <- orInternal r "generating ssh emergency CA key: " ;;
  r <- invoke (CallFileRead SSHAdditionalPrincipalsPath)
         (fileHandler_Read s SSHAdditionalPrincipalsPath) ;;
  additionalPrincipals <- orInternal r "reading additional principals file: " ;;
  let principalList :=
    (HostCertificatePrincipals req
       ++ Split (string_of_list_byte additionalPrincipals) ",")%list in
  r <- invoke CallParsePublicKey (ParsePublicKey (HostPublicKey req)) ;;
  publicKey <- orInternal r "unmarshalling host public key: " ;;
  r <- invoke (CallGenerateSSHHostCertificate principalList)
         (GenerateSSHHostCertificate principalList publicKey ca) ;;
  hostCertificate <- orInternal r "generating and signing SSH host key: " ;;
  r <- invoke (CallGetJoinToken KubernetesJoinTokenTTL)
         (GetJoinToken s KubernetesJoinTokenTTL) ;;
  kubeArgs <- orInternal r "generating Kubernetes join arguments: " ;;
  r <- getK8sComponentsConfigMapName s ;;
  componentsConfigMapName <- orInternal r "getting components ConfigMap name: " ;;
  r <- invoke (CallGetComponents componentsConfigMapName)
         (GetComponents s componentsConfigMapName) ;;
  components <- orInternal r "getting components: " ;;
  r <- invoke CallGetCertificate (GetCertificate s (CertificateRequest req)) ;;
  kubeletCert <- orInternal r "Generating kubelet certificate: " ;;
  controlPlaneFiles <- loadControlPlaneFiles s req ;;
  r <- invoke CallGetNodeNameFromCSR
         (GetNodeNameFromCSR s (CertificateRequest req)) ;;
  nodeName <- orInternal r "getting node name from CSR: " ;;
  r <- invoke (CallAddNodeToJoiningNodes nodeName componentsConfigMapName
                 (IsControlPlane req))
         (tt, AddNodeToJoiningNodes s nodeName componentsConfigMapName
                (IsControlPlane req)) ;;
  _ <- orInternal r "adding node to joining nodes: " ;;
  buildResponse s stateDiskKey measurementSecret kubeArgs kubeletCert
    controlPlaneFiles components ca hostCertificate.

Definition IssueRejoinTicket_body (s : Server) (req : IssueRejoinTicketRequest)
  : M IssueRejoinTicketResponse :=
  r <- invoke (CallGetDataKey MeasurementSecretContext DerivedKeyLengthDefault)
         (GetDataKey s MeasurementSecretContext DerivedKeyLengthDefault) ;;
  measurementSecret <- orInternal r "unable to get measurement secret: " ;;
  r <- invoke (CallGetDataKey (RejoinDiskUuid req) StateDiskKeyLength)
         (GetDataKey s (RejoinDiskUuid req) StateDiskKeyLength) ;;
  stateDiskKey <- orInternal r "unable to get key for stateful disk: " ;;
  ret {| RejoinStateDiskKey := stateDiskKey;
         RejoinMeasurementSecret := measurementSecret |}.

(** What the caller of a handler sees: the Go pair [(response, error)], or
    a panic; and the calls the handler made, in order. *)
Definition run {A} (m : M A) : list Event * Exec (option A * option error) :=
  match m [] with
  | (tr, Continue a) => (tr, Returned (Some a, None))
  | (tr, Abort e) => (tr, Returned (None, Some e))
  | (tr, Crash reason) => (tr, Panicked reason)
  end.

Definition IssueJoinTicket (s : Server) (req : IssueJoinTicketRequest) :=
  run (IssueJoinTicket_body s req).

Definition IssueRejoinTicket (s : Server) (req : IssueRejoinTicketRequest) :=
  run (IssueRejoinTicket_body s req).

End Handlers.

End JoinService.

(** ** Recovery: [cli/internal/cmd/recover_test.go] and the loop it tests *)

Module Recover.

(** The errors TestRecover feeds to the loop. *)
Definition someErr : error := errorString "error".

Definition unavailableErr : error := statusError Unavailable "unavailable".

Definition lbErrMessage : string :=
  "connection error: desc = "
    ++ String "034"%char "transport: authentication handshake failed: read tcp".

Definition lbErr : error := statusError Unavailable lbErrMessage.

(** [stubDoer]: the outcomes still to be returned. *)
Record stubDoer := {
  returns : list (option error)
}.

(** [stubDoer.Do]: hands out the first outcome; once one outcome is left it
    answers unavailable from then on.  Indexing an empty slice panics. *)
Definition stubDoer_Do (d : stubDoer) : Exec (option error * stubDoer) :=
  match returns d with
  | [] => Panicked "index out of range [0] with length 0"
  | e :: rest =>
      match rest with
      | _ :: _ => Returned (e, {| returns := rest |})
      | [] =>
          Returned (e, {| returns := [Some (statusError Unavailable "unavailable")] |})
      end
  end.

(** Modelled from the spec: the per-attempt classification of section 4.5
    and the error taxonomy of section 7 (the source of the recovery command,
    recover.go, is not available; its test is).  No error is a
    success; a status of code Unavailable whose message starts with the
    load-balancer handshake pattern is load-balancer churn; any other
    status of code Unavailable is transport-unavailable; everything else is
    fatal. *)
Inductive AttemptOutcome :=
| Success
| TransportUnavailable
| LoadBalancerChurn
| Fatal (e : error).

(** Modelled from the spec: the classification, made once per attempt on
    the error the push returned. *)
Definition classify (r : option error) : AttemptOutcome :=
  match r with
  | None => Success
  | Some (statusError Unavailable msg) =>
      if HasPrefix msg lbErrMessage then LoadBalancerChurn
      else TransportUnavailable
  | Some e => Fatal e
  end.

Definition isFatal (o : AttemptOutcome) : bool :=
  match o with Fatal _ => true | _ => false end.

(** No endpoint sees a third transport-unavailable outcome: [seen] counts
    those at the current endpoint, a success moves on to the next one. *)
Fixpoint atMostOneRetry (seen : nat) (outs : list AttemptOutcome) : bool :=
  match outs with
  | [] => true
  | Success :: outs' => atMostOneRetry 0 outs'
  | TransportUnavailable :: outs' =>
      Nat.ltb seen 2 && atMostOneRetry (S seen) outs'
  | LoadBalancerChurn :: outs' => atMostOneRetry seen outs'
  | Fatal _ :: outs' => atMostOneRetry seen outs'
  end.

Section Orchestrator.

(** The doer pushes the key to the current endpoint; calling it changes it. *)
Variable D : Type.
Variable Do : D -> Exec (option error * D).

(** The injected address source. *)
Variable Endpoint : Type.
Variable advance : Endpoint -> Endpoint.

(** The explicit state of the loop (section 9): current endpoint,
    consecutive-unavailable counter, accumulated success count. *)
Record LoopState := {
  endpoint : Endpoint;
  unavailableRetries : nat;
  successes : nat
}.

Record LoopResult := {
  recovered : nat;
  failure : option error;
  attempts : list (Endpoint * AttemptOutcome);
  doerAfter : D
}.

Inductive LoopExec :=
| Done (r : LoopResult)
| DoerPanicked (reason : string)
| OutOfFuel.

(** Modelled from the spec: the retry state machine of section 4.5, read
    with the attempt sequences of section 8.  A success is counted, the
    endpoint advances and its retry counter returns to zero.  The first
    transport-unavailable outcome at an endpoint is retried once; the second
    ends the whole loop without error.  Load-balancer churn retries the same
    endpoint and leaves the counter alone.  A fatal outcome ends the loop
    with that error and the count so far.  The loop has no bound of its own
    (load-balancer churn may go on for ever), so it runs on fuel. *)
Fixpoint recoverLoop (fuel : nat) (st : LoopState)
    (log : list (Endpoint * AttemptOutcome)) (d : D) : LoopExec :=
  match fuel with
  | O => OutOfFuel
  | S fuel' =>
      match Do d with
      | Panicked reason => DoerPanicked reason
      | Returned (e, d') =>
          let log' := (log ++ [(endpoint st, classify e)])%list in
          match classify e with
          | Success =>
              recoverLoop fuel'
                {| endpoint := advance (endpoint st);
                   unavailableRetries := 0;
                   successes := S (successes st) |} log' d'
          | TransportUnavailable =>
              if Nat.eqb (unavailableRetries st) 0 then
                recoverLoop fuel'
                  {| endpoint := endpoint st;
                     unavailableRetries := 1;
                     successes := successes st |} log' d'
              else
                Done {| recovered := successes st; failure := None;
                        attempts := log'; doerAfter := d' |}
          | LoadBalancerChurn => recoverLoop fuel' st log' d'
          | Fatal err =>
              Done {| recovered := successes st; failure := Some err;
                      attempts := log'; doerAfter := d' |}
          end
      end
  end.

Definition recoverCall (fuel : nat) (start : Endpoint) (d : D) : LoopExec :=
  recoverLoop fuel
    {| endpoint := start; unavailableRetries := 0; successes := 0 |} [] d.

(** Modelled from the spec: what the recovery command prints on completion
    (section 6): the no-nodes message for zero successes without error, the
    pushed-key message with the count of recovered nodes once a node was
    recovered; on a fatal error the count of nodes recovered before it (the
    error itself is returned to the caller). *)
Definition recoveredLine (n : nat) : string :=
  "Recovered " ++ Itoa n ++ " control-plane nodes.".

Definition report (r : LoopResult) : string :=
  match recovered r, failure r with
  | O, None => "No control-plane nodes in need of recovery found."
  | O, Some _ => recoveredLine 0
  | S _, _ => "Pushed recovery key. " ++ recoveredLine (recovered r)
  end.

(** The number of successful attempts in a history. *)
Fixpoint countSuccess (log : list (Endpoint * AttemptOutcome)) : nat :=
  match log with
  | [] => 0
  | (_, Success) :: log' => S (countSuccess log')
  | _ :: log' => countSuccess log'
  end.

End Orchestrator.

Arguments endpoint {Endpoint} _.
Arguments unavailableRetries {Endpoint} _.
Arguments successes {Endpoint} _.
Arguments Build_LoopState {Endpoint} _ _ _.
Arguments recovered {D Endpoint} _.
Arguments failure {D Endpoint} _.
Arguments attempts {D Endpoint} _.
Arguments doerAfter {D Endpoint} _.
Arguments Build_LoopResult {D Endpoint} _ _ _ _.
Arguments Done {D Endpoint} _.
Arguments DoerPanicked {D Endpoint} _.
Arguments OutOfFuel {D Endpoint}.
Arguments recoverLoop {D} Do {Endpoint} advance fuel st log d.
Arguments recoverCall {D} Do {Endpoint} advance fuel start d.
Arguments report {D Endpoint} r.
Arguments countSuccess {Endpoint} log.

(** A case of the table in TestRecover, without the fields that only
    concern reading the configuration. *)
Record testCase := {
  doer : stubDoer;
  tcEndpoint : string;
  successfulCalls : nat;
  wantErr : bool
}.

(** The loop as TestRecover runs it: on the stub doer, from the given
    endpoint.  The stub ignores the endpoint, the address source is left as
    the identity. *)
Definition recoverStub (fuel : nat) (tc : testCase) : LoopExec stubDoer string :=
  recoverCall stubDoer_Do (fun ep : string => ep) fuel (tcEndpoint tc) (doer tc).

(** The assertions of TestRecover on the returned error and the output. *)
Definition TestRecover_assertions (tc : testCase) (err : option error)
    (out : string) : bool :=
  if wantErr tc then
    match err with
    | Some _ =>
        if Nat.ltb 0 (successfulCalls tc)
        then Contains out (Itoa (successfulCalls tc))
        else true
    | None => false
    end
  else
    match err with
    | Some _ => false
    | None =>
        if Nat.ltb 0 (successfulCalls tc)
        then Contains out "Pushed recovery key."
             && Contains out (Itoa (successfulCalls tc))
        else Contains out "No control-plane nodes in need of recovery found."
    end.

Definition passes (fuel : nat) (tc : testCase) : bool :=
  match recoverStub fuel tc with
  | Done r => TestRecover_assertions tc (failure r) (report r)
  | _ => false
  end.

Definition mkCase (rs : list (option error)) (n : nat) (w : bool) : testCase :=
  {| doer := {| returns := rs |}; tcEndpoint := "192.0.2.90";
     successfulCalls := n; wantErr := w |}.

(** The table of TestRecover (the case about a missing configuration file
    never reaches the loop). *)
Definition testCases : list testCase :=
  [ mkCase [None] 1 false;
    mkCase [None; None] 2 false;
    mkCase [Some unavailableErr] 0 false;
    mkCase [Some someErr; None] 0 true;
    mkCase [Some unavailableErr; None] 1 false;
    mkCase [Some unavailableErr; Some unavailableErr; None] 0 false;
    mkCase [None; Some unavailableErr; Some unavailableErr; None] 1 false;
    mkCase [Some lbErr; Some lbErr; Some lbErr; None] 1 false ].

End Recover.

(** ** Properties of call histories of the join service *)

Module History.
Import JoinService.

Definition derivesSecret (c : Call) : bool :=
  match c with CallGetDataKey _ _ => true | _ => false end.

Definition issuesHostCertificate (c : Call) : bool :=
  match c with CallGenerateSSHHostCertificate _ => true | _ => false end.

Definition issuesKubeletCertificate (c : Call) : bool :=
  match c with CallGetCertificate => true | _ => false end.

Definition issuesCertificate (c : Call) : bool :=
  issuesHostCertificate c || issuesKubeletCertificate c.

Definition resolvesComponents (c : Call) : bool :=
  match c with
  | CallGetK8sComponentsRef _ | CallGetComponents _ => true
  | _ => false
  end.

Definition registersNode (c : Call) : bool :=
  match c with CallAddNodeToJoiningNodes _ _ _ => true | _ => false end.

Definition readsCSR (c : Call) : bool :=
  match c with CallGetCertificate | CallGetNodeNameFromCSR => true | _ => false end.

Definition failed (ev : Event) : bool :=
  match err ev with Some _ => true | None => false end.

(** Every call satisfying [P] comes before every call satisfying [Q]. *)
Fixpoint allBefore (P Q : Call -> bool) (tr : list Event) : bool :=
  match tr with
  | [] => true
  | ev :: tr' =>
      (if Q (call ev) then negb (existsb (fun ev' => P (call ev')) tr') else true)
      && allBefore P Q tr'
  end.

(** The order of the states Received, SecretsDerived, CertificatesIssued,
    ComponentsResolved, NodeRegistered, Responded of section 4.3. *)
Definition statesInOrder (tr : list Event) : bool :=
  allBefore derivesSecret issuesCertificate tr
  && allBefore issuesCertificate resolvesComponents tr
  && allBefore resolvesComponents registersNode tr.

(** The order the handler follows. *)
Definition handlerOrder (tr : list Event) : bool :=
  allBefore derivesSecret issuesCertificate tr
  && allBefore issuesHostCertificate resolvesComponents tr
  && allBefore resolvesComponents issuesKubeletCertificate tr
  && allBefore issuesKubeletCertificate registersNode tr
  && allBefore resolvesComponents registersNode tr.

(** The registration call was made and returned no error: the handler is
    at the response. *)
Definition registered (tr : list Event) : bool :=
  existsb (fun ev => registersNode (call ev) && negb (failed ev)) tr.

(** No call follows a registration call. *)
Fixpoint registrationLast (tr : list Event) : bool :=
  match tr with
  | [] => true
  | ev :: tr' =>
      (if registersNode (call ev)
       then match tr' with [] => true | _ :: _ => false end
       else true)
      && registrationLast tr'
  end.

(** The registration call was made at all. *)
Definition registrationAttempted (tr : list Event) : bool :=
  existsb (fun ev => registersNode (call ev)) tr.

(** The error taxonomy of section 7 on gRPC status codes: a client-caused
    invalid request is [codes.InvalidArgument], a failed dependency is
    [codes.Internal]. *)
Inductive ErrorClass := InvalidRequest | DependencyFailure | OtherClass.

Definition errorClass (e : error) : ErrorClass :=
  match e with
  | statusError InvalidArgument _ => InvalidRequest
  | statusError Internal _ => DependencyFailure
  | _ => OtherClass
  end.

End History.

(** ** Stub dependencies, in the manner of the package's tests *)

Module Stubs.
Import JoinService.

Definition stubExternals : Externals := {|
  Signer := bytes;
  PublicKey := bytes;
  Certificate := bytes;
  Components := list string;
  MeasurementSecretContext := "measurementSecret";
  DerivedKeyLengthDefault := 32;
  StateDiskKeyLength := 32;
  SSHCAKeySuffix := "ca_emergency_ssh";
  SSHAdditionalPrincipalsPath := "/var/run/state/ssh/ssh_principals";
  KubernetesJoinTokenTTL := 15;
  NodeVersionResourceName := "constellation-version";
  GenerateEmergencySSHCAKey := fun seed => (seed, None);
  GenerateSSHHostCertificate := fun _ key ca => ((key ++ ca)%list, None);
  ParsePublicKey := fun b =>
    match b with
    | [] => ([], Some (errorString "ssh: short read"))
    | _ => (b, None)
    end;
  Signer_PublicKey := fun ca => ca;
  Certificate_PublicKey := fun c => c;
  MarshalAuthorizedKey := fun k => k
|}.

Definition stubDataKey (uuid : string) (length : nat) : bytes * option error :=
  (firstn length (list_byte_of_string uuid ++ repeat x00 length), None).

(** A server whose dependencies all answer; the CA rejects an empty CSR. *)
Definition stubServer (kubeArgs : option BootstrapTokenDiscovery)
    (registerErr : option error) : @Server stubExternals := {|
  measurementSalt := [x01; x02];
  GetJoinToken := fun _ => (kubeArgs, None);
  GetControlPlaneCertificatesAndKeys := ([("ca.crt", [x2d])], None);
  GetDataKey := stubDataKey;
  GetCertificate := fun csr =>
    match csr with
    | [] => ([], Some (errorString "x509: malformed certificate request"))
    | _ => (csr, None)
    end;
  GetNodeNameFromCSR := fun csr =>
    match csr with
    | [] => ("", Some (errorString "x509: malformed certificate request"))
    | _ => (string_of_list_byte csr, None)
    end;
  GetK8sComponentsRefFromNodeVersionCRD := fun _ => ("k8s-components-1", None);
  GetComponents := fun _ => (["kubelet"] : @Components stubExternals, None);
  AddNodeToJoiningNodes := fun _ _ _ => registerErr;
  fileHandler_Read := fun _ => (list_byte_of_string "root,admin", None)
|}.

(** A CA that signs what it is given but finds no node name in it. *)
Definition namelessCAServer : @Server stubExternals := {|
  measurementSalt := [x01; x02];
  GetJoinToken := fun _ =>
    (Some {| Token := "t"; APIServerEndpoint := "e";
             CACertHashes := ["sha256:00"];
             UnsafeSkipCAVerification := false |}, None);
  GetControlPlaneCertificatesAndKeys := ([], None);
  GetDataKey := stubDataKey;
  GetCertificate := fun csr => (csr, None);
  GetNodeNameFromCSR := fun _ =>
    ("", Some (errorString "no node name in certificate request"));
  GetK8sComponentsRefFromNodeVersionCRD := fun _ => ("k8s-components-1", None);
  GetComponents := fun _ => (["kubelet"] : @Components stubExternals, None);
  AddNodeToJoiningNodes := fun _ _ _ => None;
  fileHandler_Read := fun _ => ([], None)
|}.

Definition goodArgs : BootstrapTokenDiscovery := {|
  Token := "abcdef.0123456789abcdef";
  APIServerEndpoint := "192.0.2.1:6443";
  CACertHashes := ["sha256:1f0e"];
  UnsafeSkipCAVerification := false
|}.

Definition noHashArgs : BootstrapTokenDiscovery := {|
  Token := "abcdef.0123456789abcdef";
  APIServerEndpoint := "192.0.2.1:6443";
  CACertHashes := [];
  UnsafeSkipCAVerification := false
|}.

Definition workerReq : IssueJoinTicketRequest := {|
  DiskUuid := "uuid";
  CertificateRequest := list_byte_of_string "node-1";
  IsControlPlane := false;
  HostPublicKey := [x2a];
  HostCertificatePrincipals := ["node-1"]
|}.

Definition controlPlaneReq : IssueJoinTicketRequest := {|
  DiskUuid := "uuid";
  CertificateRequest := list_byte_of_string "node-0";
  IsControlPlane := true;
  HostPublicKey := [x2a];
  HostCertificatePrincipals := []
|}.

Definition badCSRReq : IssueJoinTicketRequest := {|
  DiskUuid := "uuid";
  CertificateRequest := [];
  IsControlPlane := false;
  HostPublicKey := [x2a];
  HostCertificatePrincipals := []
|}.

Definition rejoinReq : IssueRejoinTicketRequest := {|
  RejoinDiskUuid := "other-uuid"
|}.

End Stubs.

(** ** More of the Go string helpers *)

Module GoStrings.

(** [strings.Count(s, sep)] for a one-byte separator. *)
Fixpoint Count (s : string) (sep : ascii) : nat :=
  match s with
  | EmptyString => 0
  | String c s' => (if Ascii.eqb c sep then 1 else 0) + Count s' sep
  end.

(** [strings.Join(elems, sep)] for a one-byte separator. *)
Fixpoint Join (elems : list string) (sep : ascii) : string :=
  match elems with
  | [] => EmptyString
  | [x] => x
  | x :: rest => x ++ String sep (Join rest sep)
  end.

End GoStrings.

(** ** More properties of call histories of the join service *)

Module HistoryMore.
Import JoinService History.

Definition createsToken (c : Call) : bool :=
  match c with CallGetJoinToken _ => true | _ => false end.

Definition loadsControlPlaneFiles (c : Call) : bool :=
  match c with CallGetControlPlaneCertificatesAndKeys => true | _ => false end.

(** The calls that only derive keys. *)
Definition onlyDerives (c : Call) : bool :=
  match c with CallGetDataKey _ _ => true | _ => false end.

End HistoryMore.

(** ** Calling the stub doer of recover_test.go repeatedly *)

Module StubDoer.
Import Recover.

(** [n] calls of [stubDoer.Do] in a row: the outcomes they return and the
    stub they leave, or the panic of the first call that panics. *)
Fixpoint calls (n : nat) (d : stubDoer) : Exec (list (option error) * stubDoer) :=
  match n with
  | O => Returned ([], d)
  | S n' =>
      match stubDoer_Do d with
      | Panicked reason => Panicked reason
      | Returned (e, d') =>
          match calls n' d' with
          | Panicked reason => Panicked reason
          | Returned (es, d'') => Returned (e :: es, d'')
          end
      end
  end.

End StubDoer.

(** ** Node names: [k8sCompliantHostname] of the bootstrapper's Kubernetes
    package *)

Module Hostname.

(** Bytes of a string. *)
Fixpoint allBytes (p : ascii -> bool) (s : string) : bool :=
  match s with
  | EmptyString => true
  | String c s' => p c && allBytes p s'
  end.

Fixpoint mapBytes (f : ascii -> ascii) (s : string) : string :=
  match s with
  | EmptyString => EmptyString
  | String c s' => String (f c) (mapBytes f s')
  end.

Definition inRange (lo hi c : ascii) : bool :=
  Nat.leb (nat_of_ascii lo) (nat_of_ascii c)
  && Nat.leb (nat_of_ascii c) (nat_of_ascii hi).

(** The character classes of [validHostnameRegex]. *)
Inductive CharClass :=
| LowerDigit       (* [a-z0-9] *)
| DashLowerDigit   (* [-a-z0-9] *)
| LiteralDot.      (* \. *)

Definition inClass (k : CharClass) (c : ascii) : bool :=
  match k with
  | LowerDigit => inRange "a" "z" c || inRange "0" "9" c
  | DashLowerDigit =>
      Ascii.eqb c "-" || inRange "a" "z" c || inRange "0" "9" c
  | LiteralDot => Ascii.eqb c "."
  end.

(** Regular expressions, as far as [validHostnameRegex] uses them. *)
Inductive regex :=
| NoMatch
| Eps
| Chars (k : CharClass)
| Seq (r1 r2 : regex)
| Alt (r1 r2 : regex)
| Star (r : regex).

(** [r?]. *)
Definition Opt (r : regex) : regex := Alt r Eps.

Fixpoint nullable (r : regex) : bool :=
  match r with
  | NoMatch => false
  | Eps => true
  | Chars _ => false
  | Seq r1 r2 => nullable r1 && nullable r2
  | Alt r1 r2 => nullable r1 || nullable r2
  | Star _ => true
  end.

(** The derivative of [r] by the byte [c]: what may follow [c]. *)
Fixpoint deriv (c : ascii) (r : regex) : regex :=
  match r with
  | NoMatch => NoMatch
  | Eps => NoMatch
  | Chars k => if inClass k c then Eps else NoMatch
  | Seq r1 r2 =>
      if nullable r1 then Alt (Seq (deriv c r1) r2) (deriv c r2)
      else Seq (deriv c r1) r2
  | Alt r1 r2 => Alt (deriv c r1) (deriv c r2)
  | Star r1 => Seq (deriv c r1) (Star r1)
  end.

(** [re.MatchString(s)] for an expression anchored at both ends, as
    [validHostnameRegex] is: the whole string has to match. *)
Fixpoint MatchString (re : regex) (s : string) : bool :=
  match s with
  | EmptyString => nullable re
  | String c s' => MatchString (deriv c re) s'
  end.

(** [[a-z0-9]([-a-z0-9]*[a-z0-9])?]. *)
Definition labelRegex : regex :=
  Seq (Chars LowerDigit)
      (Opt (Seq (Star (Chars DashLowerDigit)) (Chars LowerDigit))).

(** [^[a-z0-9]([-a-z0-9]*[a-z0-9])?(\.[a-z0-9]([-a-z0-9]*[a-z0-9])?)*$]. *)
Definition validHostnameRegex : regex :=
  Seq labelRegex (Star (Seq (Chars LiteralDot) labelRegex)).

(** [strings.Map(unicode.ToLower, s)], which [strings.ToLower] falls back to
    for a string with a byte outside ASCII; Go's Unicode tables are not
    modelled. *)
Class Unicode := {
  MapToLower : string -> string
}.

Definition isASCII (s : string) : bool :=
  allBytes (fun c => Nat.ltb (nat_of_ascii c) 128) s.

Definition lowerByte (c : ascii) : ascii :=
  if inRange "A" "Z" c then ascii_of_nat (nat_of_ascii c + 32) else c.

(** [strings.ToLower]: ASCII-only strings are lowered byte by byte. *)
Definition ToLower `{Unicode} (s : string) : string :=
  if isASCII s then mapBytes lowerByte s else MapToLower s.

(** [strings.ReplaceAll(s, old, new)] for one-byte [old] and [new]. *)
Definition ReplaceAll (s : string) (old new : ascii) : string :=
  mapBytes (fun c => if Ascii.eqb c old then new else c) s.

Definition k8sCompliantHostname `{Unicode} (input : string) : string * option error :=
  let hostname := ToLower input in
  let hostname := ReplaceAll hostname "_" "-" in
  if negb (MatchString validHostnameRegex hostname) then
    (EmptyString,
     Some (errorString
             ("failed to generate a Kubernetes compliant hostname for " ++ input)))
  else (hostname, None).

(** The last byte of [String c s]. *)
Fixpoint lastByte (c : ascii) (s : string) : ascii :=
  match s with
  | EmptyString => c
  | String c' s' => lastByte c' s'
  end.

(** A DNS label in the sense of RFC 1123, in lower case: not empty, made
    of lower-case letters, digits and dashes, with no dash at either end. *)
Definition validLabel (l : string) : bool :=
  match l with
  | EmptyString => false
  | String c rest =>
      inClass LowerDigit c
      && allBytes (inClass DashLowerDigit) rest
      && inClass LowerDigit (lastByte c rest)
  end.

(** A Unicode table for examples: it lowers nothing. *)
Definition identityUnicode : Unicode := {| MapToLower := fun s => s |}.

End Hostname.

Module HostnameSpec.
Import Hostname.

(** Labels, each behind a dot, one after the other. *)
Fixpoint dotLabels (labels : list string) : string :=
  match labels with
  | [] => EmptyString
  | l :: labels' => String "." (l ++ dotLabels labels')
  end.

(** The bytes a compliant hostname is made of. *)
Definition hostByte (c : ascii) : bool :=
  inClass DashLowerDigit c || inClass LiteralDot c.

(** All 256 bytes. *)
Definition allAscii : list ascii := map ascii_of_nat (seq 0 256).

(** [ReplaceAll] after the byte-wise [ToLower], in one pass. *)
Definition normByte (c : ascii) : ascii :=
  if Ascii.eqb (lowerByte c) "_" then "-"%char else lowerByte c.

End HostnameSpec.

(** ** The bootstrapper's Kubernetes package: [InitCluster], [JoinCluster] *)

Module Kubernetes.
Import Hostname.

(** [role.Role]. *)
Inductive Role := RoleUnknown | ControlPlane | Worker.

Definition Role_eqb (a b : Role) : bool :=
  match a, b with
  | RoleUnknown, RoleUnknown | ControlPlane, ControlPlane | Worker, Worker => true
  | _, _ => false
  end.

(** [cloudprovider.Provider]. *)
Inductive Provider := ProviderUnknown | AWS | Azure | GCP | OpenStack | QEMU.

Definition Provider_eqb (a b : Provider) : bool :=
  match a, b with
  | ProviderUnknown, ProviderUnknown | AWS, AWS | Azure, Azure | GCP, GCP
  | OpenStack, OpenStack | QEMU, QEMU => true
  | _, _ => false
  end.

(** [metadata.InstanceMetadata], the fields the package reads. *)
Record InstanceMetadata := {
  Name : string;
  ProviderID : string;
  VPCIP : string;
  AliasIPRanges : list string;
  SecondaryIPRange : string
}.

(** [corev1.ConfigMap], the fields the package sets or reads. *)
Record ConfigMap := {
  APIVersion : string;
  Kind : string;
  ObjectMeta_Name : string;
  ObjectMeta_Namespace : string;
  Data : list (string * string)
}.

(** The kubeadm configuration objects of [k8sapi] are opaque here: a
    configuration is what it was created with and the setters applied to
    it, in order; marshalling is a function of those. *)
Inductive InitSetter :=
| InitSetNodeIP (nodeIP : string)
| InitSetClusterName (clusterName : string)
| InitSetCertSANs (certSANs : list string)
| InitSetNodeName (nodeName : string)
| InitSetProviderID (providerID : string)
| InitSetControlPlaneEndpoint (controlPlaneEndpoint : string)
| InitSetServiceSubnet (serviceCIDR : string).

Record KubeadmInitYAML := {
  initExternalCloudProvider : bool;
  initK8sVersion : string;
  initSetters : list InitSetter
}.

Inductive JoinSetter :=
| SetAPIServerEndpoint (endpoint : string)
| SetToken (token : string)
| AppendDiscoveryTokenCaCertHash (hash : string)
| SetNodeIP (nodeIP : string)
| SetNodeName (nodeName : string)
| SetProviderID (providerID : string)
| SetControlPlane (advertiseAddress : string).

Record KubeadmJoinYAML := {
  joinExternalCloudProvider : bool;
  joinSetters : list JoinSetter
}.

(** What the package imports and the sources do not define. *)
Class Externals := {
  Components : Type;
  IP : Type;
  NodeKubernetesComponentsAnnotationKey : string;
  InternalConfigMap : string;
  FromString : string -> Provider;
  ParseIP : string -> option IP;
  ConstructK8sComponentsCM : Components -> string -> ConfigMap * option error;
  unicode : Unicode
}.

(** [net.JoinHostPort]: a host with a colon is put in brackets. *)
Definition JoinHostPort (host port : string) : string :=
  if negb (allBytes (fun c => negb (Ascii.eqb c ":")) host)
  then "[" ++ host ++ "]:" ++ port
  else host ++ ":" ++ port.

(** The [KubeWrapper] struct: its interface-typed fields ([clusterUtil],
    [kubeAPIWaiter], [configurationProvider], [k8sapi.Client],
    [ProviderMetadata]) are given by the methods the package calls; the
    logger and [getIPAddr] are left out. *)
Record KubeWrapper `{Externals} := {
  cloudProvider : string;
  InstallComponents : Components -> option error;
  clusterUtil_InitCluster :
    bytes -> string -> string -> list (option IP) -> bool -> bytes * option error;
  clusterUtil_JoinCluster : bytes -> option error;
  clusterUtil_StartKubelet : option error;
  Wait : option error;
  InitYAML_Marshal : KubeadmInitYAML -> bytes * option error;
  JoinYAML_Marshal : KubeadmJoinYAML -> bytes * option error;
  client_Initialize : bytes -> option error;
  PatchFirstNodePodCIDR : string -> option error;
  AnnotateNode : string -> string -> string -> option error;
  CreateConfigMap : ConfigMap -> option error;
  Self : InstanceMetadata * option error;
  GetLoadBalancerEndpoint : (string * string) * option error
}.

(** The calls of the package on its dependencies. *)
Inductive Call :=
| CallInstallComponents
| CallSelf
| CallGetLoadBalancerEndpoint
| CallInitMarshal (cfg : KubeadmInitYAML)
| CallInitCluster (initConfig : bytes) (nodeName clusterName : string)
    (conformanceMode : bool)
| CallPrioritizeIO
| CallClientInitialize (kubeConfig : bytes)
| CallWait
| CallConstructK8sComponentsCM (clusterVersion : string)
| CallCreateConfigMap (cm : ConfigMap)
| CallPatchFirstNodePodCIDR (cidr : string)
| CallAnnotateNode (nodeName key value : string)
| CallJoinMarshal (cfg : KubeadmJoinYAML)
| CallJoinCluster (joinConfig : bytes)
| CallStartKubelet.

Record Event := {
  call : Call;
  err : option error
}.

(** What a method works on besides its arguments: the history of its
    calls, and the [BootstrapTokenDiscovery] its caller passes by pointer
    ([None] is the nil pointer). *)
Record State := {
  history : list Event;
  args : option JoinService.BootstrapTokenDiscovery
}.

Definition M (A : Type) : Type := State -> State * JoinService.Step A.

Definition ret {A} (a : A) : M A := fun st => (st, JoinService.Continue a).

Definition bind {A B} (m : M A) (k : A -> M B) : M B :=
  fun st =>
    match m st with
    | (st', JoinService.Continue a) => k a st'
    | (st', JoinService.Abort e) => (st', JoinService.Abort e)
    | (st', JoinService.Crash r) => (st', JoinService.Crash r)
    end.

Local Notation "x <- m ;; k" := (bind m (fun x => k))
  (at level 61, m at next level, right associativity).

(** A call on a dependency: made and recorded. *)
Definition invoke {A} (c : Call) (r : A * option error) : M (A * option error) :=
  fun st =>
    ({| history := (history st ++ [{| call := c; err := snd r |}])%list;
        args := args st |},
     JoinService.Continue r).

(** [if err != nil { return ..., wrap(err) }]. *)
Definition orReturn {A} (r : A * option error) (wrap : error -> error) : M A :=
  fun st =>
    match snd r with
    | Some e => (st, JoinService.Abort (wrap e))
    | None => (st, JoinService.Continue (fst r))
    end.

Definition panic {A} (reason : string) : M A :=
  fun st => (st, JoinService.Crash reason).

Section Methods.
Context `{Externals}.

Local Existing Instance unicode.

(** [cloudprovider.FromString(k.cloudProvider) == p]. *)
Definition providerIs (k : KubeWrapper) (p : Provider) : bool :=
  Provider_eqb (FromString (cloudProvider k)) p.

Definition setupK8sComponentsConfigMap (k : KubeWrapper)
    (components : Components) (clusterVersion : string)
  : M (string * option error) :=
  r <- invoke (CallConstructK8sComponentsCM clusterVersion)
         (ConstructK8sComponentsCM components clusterVersion) ;;
  match snd r with
  | Some e =>
      ret (EmptyString,
           Some (fmt_Errorf_w "constructing k8s-components ConfigMap: " e))
  | None =>
      let componentsConfig := fst r in
      r <- invoke (CallCreateConfigMap componentsConfig)
             (tt, CreateConfigMap k componentsConfig) ;;
      match snd r with
      | Some e =>
          ret (EmptyString,
               Some (fmt_Errorf_w
                       "apply in KubeWrapper.setupK8sVersionConfigMap(..) for components config map failed with: "
                       e))
      | None => ret (ObjectMeta_Name componentsConfig, None)
      end
  end.

Definition internalConfigMap : ConfigMap := {|
  APIVersion := "v1";
  Kind := "ConfigMap";
  ObjectMeta_Name := InternalConfigMap;
  ObjectMeta_Namespace := "kube-system";
  Data := []
|}.

Definition setupInternalConfigMap (k : KubeWrapper) : M (unit * option error) :=
  r <- invoke (CallCreateConfigMap internalConfigMap)
         (tt, CreateConfigMap k internalConfigMap) ;;
  match snd r with
  | Some e =>
      ret (tt, Some (fmt_Errorf_w
                       "apply in KubeWrapper.setupInternalConfigMap failed with: " e))
  | None => ret (tt, None)
  end.

(** The step of [InitCluster] that only GCP takes. *)
Definition patchFirstNodePodCIDR (k : KubeWrapper) (instance : InstanceMetadata)
  : M unit :=
  if providerIs k GCP then
    let nodePodCIDR :=
      match AliasIPRanges instance with
      | first :: _ => first
      | [] => EmptyString
      end in
    r <- invoke (CallPatchFirstNodePodCIDR nodePodCIDR)
           (tt, PatchFirstNodePodCIDR k nodePodCIDR) ;;
    orReturn r (fmt_Errorf_w "patching first node pod CIDR: ")
  else ret tt.

Definition InitCluster_body (k : KubeWrapper)
    (versionString clusterName : string) (conformanceMode : bool)
    (kubernetesComponents : Components) (apiServerCertSANs : list string)
    (serviceCIDR : string) : M bytes :=
  r <- invoke CallInstallComponents (tt, InstallComponents k kubernetesComponents) ;;
  _ <- orReturn r (fun e => e) ;;
  r <- invoke CallSelf (Self k) ;;
  instance <- orReturn r (fmt_Errorf_w "retrieving own instance metadata: ") ;;
  let validIPs :=
    if String.eqb (VPCIP instance) EmptyString then []
    else [ParseIP (VPCIP instance)] in
  nodeName <- orReturn (k8sCompliantHostname (Name instance))
                (fmt_Errorf_w "generating node name: ") ;;
  let nodeIP := VPCIP instance in
  r <- invoke CallGetLoadBalancerEndpoint (GetLoadBalancerEndpoint k) ;;
  lb <- orReturn r (fmt_Errorf_w "retrieving load balancer endpoint: ") ;;
  let controlPlaneHost := fst lb in
  let certSANs := nodeIP :: apiServerCertSANs in
  let ccmSupported :=
    providerIs k Azure || providerIs k GCP || providerIs k AWS in
  let initConfig :=
    {| initExternalCloudProvider := ccmSupported;
       initK8sVersion := versionString;
       initSetters :=
         [InitSetNodeIP nodeIP; InitSetClusterName clusterName;
          InitSetCertSANs certSANs; InitSetNodeName nodeName;
          InitSetProviderID (ProviderID instance);
          InitSetControlPlaneEndpoint controlPlaneHost;
          InitSetServiceSubnet serviceCIDR] |} in
  r <- invoke (CallInitMarshal initConfig) (InitYAML_Marshal k initConfig) ;;
  initConfigYAML <- orReturn r
    (fmt_Errorf_w "encoding kubeadm init configuration as YAML: ") ;;
  r <- invoke (CallInitCluster initConfigYAML nodeName clusterName conformanceMode)
         (clusterUtil_InitCluster k initConfigYAML nodeName clusterName validIPs
            conformanceMode) ;;
  kubeConfig <- orReturn r (fmt_Errorf_w "kubeadm init: ") ;;
  _ <- invoke CallPrioritizeIO (tt, None) ;;
  r <- invoke (CallClientInitialize kubeConfig) (tt, client_Initialize k kubeConfig) ;;
  _ <- orReturn r (fmt_Errorf_w "initializing kubectl client: ") ;;
  r <- invoke CallWait (tt, Wait k) ;;
  _ <- orReturn r (fmt_Errorf_w "waiting for Kubernetes API to be available: ") ;;
  r <- setupK8sComponentsConfigMap k kubernetesComponents versionString ;;
  k8sComponentsConfigMap <- orReturn r
    (fmt_Errorf_w "failed to setup k8s version ConfigMap: ") ;;
  _ <- patchFirstNodePodCIDR k instance ;;
  r <- invoke (CallAnnotateNode nodeName NodeKubernetesComponentsAnnotationKey
                 k8sComponentsConfigMap)
         (tt, AnnotateNode k nodeName NodeKubernetesComponentsAnnotationKey
                k8sComponentsConfigMap) ;;
  _ <- orReturn r
    (fmt_Errorf_w "annotating node with Kubernetes components hash: ") ;;
  r <- setupInternalConfigMap k ;;
  _ <- orReturn r (fmt_Errorf_w "failed to setup internal ConfigMap: ") ;;
  ret kubeConfig.

(** [args.APIServerEndpoint = endpoint], through the caller's pointer. *)
Definition setAPIServerEndpoint (endpoint : string)
  : M JoinService.BootstrapTokenDiscovery :=
  fun st =>
    match args st with
    | None =>
        (st, JoinService.Crash "invalid memory address or nil pointer dereference")
    | Some a =>
        let a' :=
          {| JoinService.Token := JoinService.Token a;
             JoinService.APIServerEndpoint := endpoint;
             JoinService.CACertHashes := JoinService.CACertHashes a;
             JoinService.UnsafeSkipCAVerification :=
               JoinService.UnsafeSkipCAVerification a |} in
        ({| history := history st; args := Some a' |}, JoinService.Continue a')
    end.

(** [args.CACertHashes[0]]. *)
Definition firstCACertHash (a : JoinService.BootstrapTokenDiscovery) : M string :=
  match JoinService.CACertHashes a with
  | [] => panic "index out of range [0] with length 0"
  | hash0 :: _ => ret hash0
  end.

(** [fmt.Errorf("joining cluster: %v; %w ", string(joinConfigYAML), err)]. *)
Definition joinError (joinConfigYAML : bytes) (e : error) : error :=
  wrapError ("joining cluster: " ++ string_of_list_byte joinConfigYAML
               ++ "; " ++ Error e ++ " ") e.

Definition JoinCluster_body (k : KubeWrapper) (peerRole : Role)
    (k8sComponents : Components) : M unit :=
  r <- invoke CallInstallComponents (tt, InstallComponents k k8sComponents) ;;
  _ <- orReturn r (fmt_Errorf_w "installing kubernetes components: ") ;;
  r <- invoke CallSelf (Self k) ;;
  instance <- orReturn r (fmt_Errorf_w "retrieving own instance metadata: ") ;;
  let providerID := ProviderID instance in
  let nodeInternalIP := VPCIP instance in
  nodeName <- orReturn (k8sCompliantHostname (Name instance))
                (fmt_Errorf_w "generating node name: ") ;;
  r <- invoke CallGetLoadBalancerEndpoint (GetLoadBalancerEndpoint k) ;;
  lb <- orReturn r (fmt_Errorf_w "retrieving own instance metadata: ") ;;
  a <- setAPIServerEndpoint (JoinHostPort (fst lb) (snd lb)) ;;
  let ccmSupported := providerIs k Azure || providerIs k GCP in
  hash0 <- firstCACertHash a ;;
  let joinConfig :=
    {| joinExternalCloudProvider := ccmSupported;
       joinSetters :=
         ([SetAPIServerEndpoint (JoinService.APIServerEndpoint a);
           SetToken (JoinService.Token a);
           AppendDiscoveryTokenCaCertHash hash0;
           SetNodeIP nodeInternalIP; SetNodeName nodeName;
           SetProviderID providerID]
          ++ (if Role_eqb peerRole ControlPlane
              then [SetControlPlane nodeInternalIP] else []))%list |} in
  r <- invoke (CallJoinMarshal joinConfig) (JoinYAML_Marshal k joinConfig) ;;
  joinConfigYAML <- orReturn r
    (fmt_Errorf_w "encoding kubeadm join configuration as YAML: ") ;;
  r <- invoke (CallJoinCluster joinConfigYAML)
         (tt, clusterUtil_JoinCluster k joinConfigYAML) ;;
  _ <- orReturn r (joinError joinConfigYAML) ;;
  if Role_eqb peerRole ControlPlane
  then (_ <- invoke CallPrioritizeIO (tt, None) ;; ret tt)
  else ret tt.

Definition StartKubelet_body (k : KubeWrapper) : M unit :=
  r <- invoke CallStartKubelet (tt, clusterUtil_StartKubelet k) ;;
  _ <- orReturn r (fmt_Errorf_w "starting kubelet: ") ;;
  _ <- invoke CallPrioritizeIO (tt, None) ;;
  ret tt.

(** What the caller sees of a method returning [([]byte, error)]: the
    pair (a nil slice is the empty one), or a panic; with it the calls
    made. *)
Definition InitCluster (k : KubeWrapper)
    (versionString clusterName : string) (conformanceMode : bool)
    (kubernetesComponents : Components) (apiServerCertSANs : list string)
    (serviceCIDR : string) : list Event * Exec (bytes * option error) :=
  match InitCluster_body k versionString clusterName conformanceMode
          kubernetesComponents apiServerCertSANs serviceCIDR
          {| history := []; args := None |} with
  | (st, JoinService.Continue kubeConfig) => (history st, Returned (kubeConfig, None))
  | (st, JoinService.Abort e) => (history st, Returned ([], Some e))
  | (st, JoinService.Crash reason) => (history st, Panicked reason)
  end.

(** What the caller sees of a method returning [error], and what has
    become of the struct behind its pointer. *)
Definition runError (m : M unit) (a : option JoinService.BootstrapTokenDiscovery)
  : State * Exec (option error) :=
  match m {| history := []; args := a |} with
  | (st, JoinService.Continue _) => (st, Returned None)
  | (st, JoinService.Abort e) => (st, Returned (Some e))
  | (st, JoinService.Crash reason) => (st, Panicked reason)
  end.

Definition JoinCluster (k : KubeWrapper)
    (a : option JoinService.BootstrapTokenDiscovery) (peerRole : Role)
    (k8sComponents : Components) : State * Exec (option error) :=
  runError (JoinCluster_body k peerRole k8sComponents) a.

Definition StartKubelet (k : KubeWrapper) : State * Exec (option error) :=
  runError (StartKubelet_body k) None.

(** [JoinCluster] gets as far as the join configuration when the
    components install, the instance metadata is there, the instance name
    can be made compliant and the load balancer endpoint is known. *)
Definition reachesJoinConfiguration (k : KubeWrapper) (k8sComponents : Components)
  : Prop :=
  InstallComponents k k8sComponents = None
  /\ snd (Self k) = None
  /\ snd (k8sCompliantHostname (Name (fst (Self k)))) = None
  /\ snd (GetLoadBalancerEndpoint k) = None.

End Methods.

End Kubernetes.

(** ** Stub dependencies for the Kubernetes package *)

Module KubeStubs.
Import Hostname Kubernetes.

Definition stubExternals : Externals := {|
  Components := list string;
  IP := string;
  NodeKubernetesComponentsAnnotationKey :=
    "constellation.edgeless.systems/kubernetes-components";
  InternalConfigMap := "internal-config";
  FromString := fun s =>
    if String.eqb s "gcp" then GCP
    else if String.eqb s "aws" then AWS
    else if String.eqb s "azure" then Azure
    else ProviderUnknown;
  ParseIP := fun s => Some s;
  ConstructK8sComponentsCM := fun _ version =>
    ({| APIVersion := "v1"; Kind := "ConfigMap";
        ObjectMeta_Name := "k8s-components-" ++ version;
        ObjectMeta_Namespace := "kube-system"; Data := [] |}, None);
  unicode := identityUnicode
|}.

Definition stubInstance : InstanceMetadata := {|
  Name := "Node_1";
  ProviderID := "gcp:///project/zone/node-1";
  VPCIP := "192.0.2.11";
  AliasIPRanges := ["10.0.0.0/24"];
  SecondaryIPRange := "10.0.0.0/16"
|}.

(** A wrapper on the given cloud whose dependencies all answer, except
    that joining fails with [joinErr] if that is an error. *)
Definition stubWrapper (provider : string) (joinErr : option error)
  : @KubeWrapper stubExternals := {|
  cloudProvider := provider;
  InstallComponents := fun _ => None;
  clusterUtil_InitCluster := fun _ _ _ _ _ => (list_byte_of_string "kubeconfig", None);
  clusterUtil_JoinCluster := fun _ => joinErr;
  clusterUtil_StartKubelet := None;
  Wait := None;
  InitYAML_Marshal := fun _ => (list_byte_of_string "init-config", None);
  JoinYAML_Marshal := fun cfg =>
    (list_byte_of_string
       (match joinSetters cfg with
        | _ :: SetToken token :: _ => "token: " ++ token
        | _ => "join-config"
        end), None);
  client_Initialize := fun _ => None;
  PatchFirstNodePodCIDR := fun _ => None;
  AnnotateNode := fun _ _ _ => None;
  CreateConfigMap := fun _ => None;
  Self := (stubInstance, None);
  GetLoadBalancerEndpoint := (("192.0.2.1", "6443"), None)
|}.

Definition stubArgs : JoinService.BootstrapTokenDiscovery := {|
  JoinService.Token := "abcdef.0123456789abcdef";
  JoinService.APIServerEndpoint := "198.51.100.7:6443";
  JoinService.CACertHashes := ["sha256:1f0e"];
  JoinService.UnsafeSkipCAVerification := false
|}.

End KubeStubs.

(** * Theorems *)

Import Recover JoinService History Stubs.

(** ** Sanity of the Go helpers *)

Example Split_two : Split "root,admin" "," = ["root"; "admin"].
Proof. reflexivity. Qed.

Example Split_empty : Split "" "," = [""].
Proof. reflexivity. Qed.

Example Itoa_12 : Itoa 12 = "12".
Proof. reflexivity. Qed.

(** ** The join service *)

(** Splits a handler run, given as an equation, into its paths: one for
    each call that can fail, one for each way of building the response. *)
Ltac unfold_handler E :=
  cbv [IssueJoinTicket IssueRejoinTicket IssueJoinTicket_body
       IssueRejoinTicket_body run bind invoke orInternal ret panic
       getK8sComponentsConfigMapName loadControlPlaneFiles buildResponse] in E;
  cbn [fst snd app] in E.

Ltac split_handler E :=
  repeat
    (lazymatch type of E with
     | context [match snd ?r with _ => _ end] =>
         destruct r as [? [?|]] eqn:?
     | context [match AddNodeToJoiningNodes ?s ?a ?b ?c with _ => _ end] =>
         destruct (AddNodeToJoiningNodes s a b c) eqn:?
     | context [if IsControlPlane ?r then _ else _] =>
         destruct (IsControlPlane r) eqn:?
     | context [match CACertHashes ?a with _ => _ end] =>
         destruct (CACertHashes a) eqn:?
     | context [match ?o with Some _ => _ | None => _ end] =>
         is_var o; destruct o
     end; cbn [fst snd app] in E).

Ltac handler_paths E :=
  unfold_handler E; split_handler E;
  match type of E with (_, _) = (_, _) => injection E as <- <- end.

Ltac event_in :=
  cbn [In]; intros ?;
  repeat match goal with
         | Ho : _ \/ _ |- _ => destruct Ho
         | Hf : False |- _ => destruct Hf
         | Hev : Build_Event _ _ = Build_Event _ _ |- _ =>
             first [discriminate Hev | injection Hev as ? ?; subst]
         end.

(** C3.  IssueJoinTicket is atomic at the RPC boundary: a call of the
    handler that fails makes it return an Internal error and a nil
    response; what it returns is either an error without response or a
    response without error, never both and never neither; an error is
    only returned after a call failed, and then the node is not registered;
    a response is only returned after every call succeeded and the node was
    registered,
    and it carries the derived secrets and the signed certificate; no call
    follows the registration call; a failed registration fails the whole
    operation. *)
Theorem IssueJoinTicket_atomic `{Externals} (s : Server) (req : IssueJoinTicketRequest) :
  let tr := fst (IssueJoinTicket s req) in
  let out := snd (IssueJoinTicket s req) in
  (existsb failed tr = true ->
     exists msg, out = Returned (None, Some (statusError Internal msg)))
  /\ (forall resp e, out = Returned (resp, e) ->
        (resp = None /\ e <> None) \/ (resp <> None /\ e = None))
  /\ (forall e, out = Returned (None, Some e) ->
        existsb failed tr = true /\ registered tr = false)
  /\ (forall resp, out = Returned (Some resp, None) ->
        existsb failed tr = false /\ registered tr = true
        /\ StateDiskKey resp = fst (GetDataKey s (DiskUuid req) StateDiskKeyLength)
        /\ MeasurementSecret resp =
             fst (GetDataKey s MeasurementSecretContext DerivedKeyLengthDefault)
        /\ MeasurementSalt resp = measurementSalt s
        /\ KubeletCert resp = fst (GetCertificate s (CertificateRequest req)))
  /\ registrationLast tr = true
  /\ (forall n c cp e,
        In {| call := CallAddNodeToJoiningNodes n c cp; err := Some e |} tr ->
        out = Returned
                (None, Some (status_Errorf Internal "adding node to joining nodes: " e))).
Proof.
  destruct (IssueJoinTicket s req) as [tr out] eqn:E. cbn [fst snd].
  handler_paths E.
  all: refine (conj _ (conj _ (conj _ (conj _ (conj _ _))))).
  all: try (intros _; eexists; reflexivity).
  all: try (cbn; discriminate).
  all: try reflexivity.
  all: try (intros resp e' Hr; injection Hr as <- <-;
            first [left; split; [reflexivity | discriminate]
                  | right; split; [discriminate | reflexivity]]).
  all: try (intros resp Hr; discriminate Hr).
  all: try (intros e' Hr; split; reflexivity).
  all: try (intros n' c' cp' e'; event_in; try reflexivity; fail).
  all: intros resp Hr; injection Hr as <-; cbn;
       repeat match goal with
              | Heq : _ = (_, _) |- _ => rewrite Heq
              end; repeat split.
Qed.

(** C7, as claimed, fails: in a successful join of a worker node the
    kubelet certificate is signed after the components reference was
    resolved and the component list fetched, so the calls do not follow the
    order SecretsDerived, CertificatesIssued, ComponentsResolved. *)
Lemma IssueJoinTicket_states_not_in_order :
  let run := @IssueJoinTicket stubExternals (stubServer (Some goodArgs) None) workerReq in
  (exists resp, snd run = Returned (Some resp, None))
  /\ statesInOrder (fst run) = false
  /\ allBefore issuesCertificate resolvesComponents (fst run) = false.
Proof.
  cbv zeta. split; [eexists; reflexivity | split; reflexivity].
Qed.

(** C7, amended.  In every run of IssueJoinTicket all secrets are derived
    before any certificate is issued; the host certificate is issued before
    the components reference is resolved; the kubelet certificate is signed
    after the components reference was resolved and the component list
    fetched; the node is registered after all of these, and no call follows
    the registration; a response is returned only after the registration
    succeeded. *)
Theorem IssueJoinTicket_order `{Externals} (s : Server) (req : IssueJoinTicketRequest) :
  let tr := fst (IssueJoinTicket s req) in
  handlerOrder tr = true
  /\ registrationLast tr = true
  /\ (forall resp, snd (IssueJoinTicket s req) = Returned (Some resp, None) ->
        registered tr = true
        /\ existsb (fun ev => issuesKubeletCertificate (call ev)) tr = true
        /\ existsb (fun ev => issuesHostCertificate (call ev)) tr = true
        /\ existsb (fun ev => resolvesComponents (call ev)) tr = true).
Proof.
  destruct (IssueJoinTicket s req) as [tr out] eqn:E. cbn [fst snd].
  handler_paths E.
  all: refine (conj _ (conj _ _)); try reflexivity.
  all: intros resp Hr; first [discriminate Hr | repeat split].
Qed.

(** C8, as claimed, fails: a certificate signing request the CA cannot
    parse, or one without a node name, makes the handler return a status of
    code Internal, the code of a failed dependency, not one of an invalid
    request. *)
Lemma bad_CSR_reported_as_Internal :
  (exists e,
     snd (@IssueJoinTicket stubExternals (stubServer (Some goodArgs) None) badCSRReq)
       = Returned (None, Some e)
     /\ errorClass e = DependencyFailure /\ errorClass e <> InvalidRequest)
  /\ (exists e,
        snd (@IssueJoinTicket stubExternals namelessCAServer workerReq)
          = Returned (None, Some e)
        /\ errorClass e = DependencyFailure /\ errorClass e <> InvalidRequest).
Proof.
  split; eexists; (split; [reflexivity | split; [reflexivity | discriminate]]).
Qed.

(** C8, amended.  When the CA cannot sign the certificate signing request
    or cannot extract a node name from it, IssueJoinTicket returns no
    response and a status of code Internal (the code it uses for every
    failure), and the registration call is never made. *)
Theorem IssueJoinTicket_bad_CSR `{Externals} (s : Server) (req : IssueJoinTicketRequest) :
  snd (GetCertificate s (CertificateRequest req)) <> None
  \/ snd (GetNodeNameFromCSR s (CertificateRequest req)) <> None ->
  (exists msg,
     snd (IssueJoinTicket s req) = Returned (None, Some (statusError Internal msg)))
  /\ registrationAttempted (fst (IssueJoinTicket s req)) = false.
Proof.
  intros Hbad.
  destruct (IssueJoinTicket s req) as [tr out] eqn:E. cbn [fst snd].
  handler_paths E.
  all: try (split; [eexists; reflexivity | reflexivity]).
  all: exfalso; cbn [snd] in Hbad; destruct Hbad as [Hbad | Hbad]; apply Hbad;
       reflexivity.
Qed.

Lemma IssueJoinTicket_bad_CSR_witness :
  (snd (GetCertificate (stubServer (Some goodArgs) None) (CertificateRequest badCSRReq)) <> None
   \/ snd (GetNodeNameFromCSR (stubServer (Some goodArgs) None) (CertificateRequest badCSRReq)) <> None)
  /\ (exists msg,
        snd (@IssueJoinTicket stubExternals (stubServer (Some goodArgs) None) badCSRReq)
          = Returned (None, Some (statusError Internal msg)))
  /\ registrationAttempted
       (fst (@IssueJoinTicket stubExternals (stubServer (Some goodArgs) None) badCSRReq)) = false.
Proof.
  split.
  - left. discriminate.
  - apply (@IssueJoinTicket_bad_CSR stubExternals). left. discriminate.
Defined.

(** C9.  A call of IssueJoinTicket that reaches the response (the node was
    registered) returns a complete response exactly when the join token
    result holds at least one CA certificate hash, and that response
    carries the first hash; with an empty hash list (or a nil result) the
    handler panics on the unguarded index instead of returning.  A call
    that does not reach the response returns an error. *)
Theorem IssueJoinTicket_needs_CACertHash `{Externals} (s : Server) (req : IssueJoinTicketRequest) :
  let tr := fst (IssueJoinTicket s req) in
  let out := snd (IssueJoinTicket s req) in
  (registered tr = true ->
     match fst (GetJoinToken s KubernetesJoinTokenTTL) with
     | Some args =>
         match CACertHashes args with
         | hash0 :: _ =>
             exists resp, out = Returned (Some resp, None)
                          /\ DiscoveryTokenCaCertHash resp = hash0
         | [] => out = Panicked "index out of range [0] with length 0"
         end
     | None => out = Panicked "invalid memory address or nil pointer dereference"
     end)
  /\ (registered tr = false -> exists e, out = Returned (None, Some e))
  /\ ((exists reason, out = Panicked reason) ->
        registered tr = true
        /\ match fst (GetJoinToken s KubernetesJoinTokenTTL) with
           | Some args => CACertHashes args = []
           | None => True
           end).
Proof.
  destruct (IssueJoinTicket s req) as [tr out] eqn:E. cbn [fst snd].
  handler_paths E.
  all: refine (conj _ (conj _ _)).
  all: try (cbn; discriminate).
  all: try (intros _; eexists; reflexivity).
  all: try (intros [reason Hp]; discriminate Hp).
  all: try (intros _; cbn [fst];
            repeat match goal with
                   | Heq : CACertHashes _ = _ |- _ => rewrite Heq
                   end;
            first [reflexivity | eexists; split; reflexivity]).
  all: intros _; split; [reflexivity | cbn [fst]; try assumption; exact I].
Qed.

(** On stubs: a token result without hashes makes the handler panic
    after the node was registered. *)
Example IssueJoinTicket_panics_without_hash :
  let run := @IssueJoinTicket stubExternals (stubServer (Some noHashArgs) None) workerReq in
  snd run = Panicked "index out of range [0] with length 0"
  /\ registered (fst run) = true.
Proof. split; reflexivity. Qed.

(** The keys a returned response carries are what the key getter gave. *)
Lemma IssueJoinTicket_keys `{Externals} (s : Server) (j : IssueJoinTicketRequest) resp :
  snd (IssueJoinTicket s j) = Returned (Some resp, None) ->
  MeasurementSecret resp =
    fst (GetDataKey s MeasurementSecretContext DerivedKeyLengthDefault)
  /\ StateDiskKey resp =
       fst (GetDataKey s (DiskUuid j) JoinService.StateDiskKeyLength).
Proof.
  intros Hr.
  destruct (IssueJoinTicket s j) as [tr out] eqn:E. cbn [snd] in Hr.
  handler_paths E; try discriminate Hr.
  all: injection Hr as <-; cbn;
       repeat match goal with
              | Heq : _ = (_, _) |- _ => rewrite Heq
              end; split; reflexivity.
Qed.

Lemma IssueRejoinTicket_keys `{Externals} (s : Server) (r : IssueRejoinTicketRequest) resp :
  snd (IssueRejoinTicket s r) = Returned (Some resp, None) ->
  RejoinMeasurementSecret resp =
    fst (GetDataKey s MeasurementSecretContext DerivedKeyLengthDefault)
  /\ RejoinStateDiskKey resp =
       fst (GetDataKey s (RejoinDiskUuid r) JoinService.StateDiskKeyLength).
Proof.
  intros Hr.
  destruct (IssueRejoinTicket s r) as [tr out] eqn:E. cbn [snd] in Hr.
  handler_paths E; try discriminate Hr.
  injection Hr as <-. cbn.
  repeat match goal with
         | Heq : _ = (_, _) |- _ => rewrite Heq
         end; split; reflexivity.
Qed.

(** C10.  Join and rejoin derive the measurement secret with the same
    label and the same length: it is the first call of either handler.  So
    on servers whose key getters agree (same master secret and salt behind
    a deterministic derivation) every join response and every rejoin
    response carry the same measurement secret, whatever the requests. *)
Theorem measurement_secret_shared `{Externals} (s1 s2 : Server)
    (j1 j2 : IssueJoinTicketRequest) (r1 r2 : IssueRejoinTicketRequest)
    (sameKeys : forall label length,
        GetDataKey s1 label length = GetDataKey s2 label length) :
  let secret := fst (GetDataKey s1 MeasurementSecretContext DerivedKeyLengthDefault) in
  (forall resp, snd (IssueJoinTicket s1 j1) = Returned (Some resp, None) ->
     MeasurementSecret resp = secret)
  /\ (forall resp, snd (IssueJoinTicket s2 j2) = Returned (Some resp, None) ->
        MeasurementSecret resp = secret)
  /\ (forall resp, snd (IssueRejoinTicket s1 r1) = Returned (Some resp, None) ->
        RejoinMeasurementSecret resp = secret)
  /\ (forall resp, snd (IssueRejoinTicket s2 r2) = Returned (Some resp, None) ->
        RejoinMeasurementSecret resp = secret)
  /\ (exists e1 e2 rest1 rest2,
        fst (IssueJoinTicket s1 j1) =
          {| call := CallGetDataKey MeasurementSecretContext DerivedKeyLengthDefault;
             err := e1 |} :: rest1
        /\ fst (IssueRejoinTicket s2 r2) =
             {| call := CallGetDataKey MeasurementSecretContext DerivedKeyLengthDefault;
                err := e2 |} :: rest2).
Proof.
  cbv zeta.
  assert (Hjoin : forall (s : Server) (j : IssueJoinTicketRequest) resp,
             snd (IssueJoinTicket s j) = Returned (Some resp, None) ->
             MeasurementSecret resp =
             fst (GetDataKey s MeasurementSecretContext DerivedKeyLengthDefault))
    by (intros s j resp Hr; now apply IssueJoinTicket_keys in Hr).
  assert (Hrejoin : forall (s : Server) (r : IssueRejoinTicketRequest) resp,
             snd (IssueRejoinTicket s r) = Returned (Some resp, None) ->
             RejoinMeasurementSecret resp =
             fst (GetDataKey s MeasurementSecretContext DerivedKeyLengthDefault))
    by (intros s r resp Hr; now apply IssueRejoinTicket_keys in Hr).
  repeat split.
  - apply Hjoin.
  - intros resp Hr. rewrite sameKeys. revert Hr. apply Hjoin.
  - apply Hrejoin.
  - intros resp Hr. rewrite sameKeys. revert Hr. apply Hrejoin.
  - destruct (IssueJoinTicket s1 j1) as [tr1 out1] eqn:E1.
    destruct (IssueRejoinTicket s2 r2) as [tr2 out2] eqn:E2. cbn [fst].
    handler_paths E1; handler_paths E2; do 4 eexists; split; reflexivity.
Qed.

Lemma measurement_secret_shared_witness :
  (forall label length,
      GetDataKey (stubServer (Some goodArgs) None) label length =
      GetDataKey namelessCAServer label length)
  /\ (forall resp,
        snd (@IssueJoinTicket stubExternals (stubServer (Some goodArgs) None) workerReq)
          = Returned (Some resp, None) ->
        MeasurementSecret resp =
        fst (stubDataKey (@MeasurementSecretContext stubExternals)
               (@DerivedKeyLengthDefault stubExternals)))
  /\ (forall resp,
        snd (@IssueRejoinTicket stubExternals namelessCAServer rejoinReq)
          = Returned (Some resp, None) ->
        RejoinMeasurementSecret resp =
        fst (stubDataKey (@MeasurementSecretContext stubExternals)
               (@DerivedKeyLengthDefault stubExternals))).
Proof.
  split; [reflexivity |].
  pose proof (@measurement_secret_shared stubExternals
                (stubServer (Some goodArgs) None) namelessCAServer
                workerReq controlPlaneReq rejoinReq rejoinReq
                (fun _ _ => eq_refl)) as (Hj & _ & _ & Hr & _).
  split; [exact Hj | exact Hr].
Defined.

(** ** The recovery loop *)

Lemma HasPrefix_app (p s : string) : HasPrefix (p ++ s) p = true.
Proof.
  unfold HasPrefix. induction p as [|a p IH]; cbn.
  - destruct s; reflexivity.
  - destruct (ascii_dec a a) as [_|Hne]; [exact IH | now elim Hne].
Qed.

Lemma Contains_unfold (s sub : string) :
  Contains s sub =
  (HasPrefix s sub
   || match s with
      | EmptyString => false
      | String _ s' => Contains s' sub
      end).
Proof. destruct s; reflexivity. Qed.

Lemma Contains_here (sub s : string) : Contains (sub ++ s) sub = true.
Proof. rewrite Contains_unfold, HasPrefix_app. reflexivity. Qed.

Lemma Contains_skip (a s sub : string) :
  Contains s sub = true -> Contains (a ++ s) sub = true.
Proof.
  intros Hs. induction a as [|c a IH]; [exact Hs|].
  cbn [append]. rewrite Contains_unfold, IH. apply orb_true_r.
Qed.

Lemma report_contains_count {D Endpoint} (r : LoopResult D Endpoint) :
  0 < recovered r ->
  Contains (report r) "Pushed recovery key." = true
  /\ Contains (report r) (Itoa (recovered r)) = true.
Proof.
  unfold report. destruct (recovered r) as [|n] eqn:En; [lia|]. intros _. split.
  - apply (Contains_here "Pushed recovery key.").
  - apply Contains_skip. unfold recoveredLine.
    apply Contains_skip. apply Contains_here.
Qed.

Section OrchestratorFacts.
Variable D : Type.
Variable Do : D -> Exec (option error * D).
Variable Endpoint : Type.
Variable advance : Endpoint -> Endpoint.

Local Notation "'loop'" := (recoverLoop Do advance).

(** More fuel does not change a finished run. *)
Lemma recoverLoop_more_fuel (fuel : nat) :
  forall st log d r,
    loop fuel st log d = Done r ->
    forall k, loop (fuel + k) st log d = Done r.
Proof.
  induction fuel as [|fuel IH]; intros st log d r Hrun k; [discriminate Hrun|].
  cbn [recoverLoop Nat.add] in *.
  destruct (Do d) as [[e d']|reason]; [|discriminate Hrun].
  destruct (classify e); try (apply IH; exact Hrun); try exact Hrun.
  destruct (Nat.eqb (unavailableRetries st) 0); [apply IH|]; exact Hrun.
Qed.

(** The first transport-unavailable outcome at an endpoint is retried. *)
Lemma recoverLoop_unavailable_first fuel st log d e d' :
  Do d = Returned (e, d') -> classify e = TransportUnavailable ->
  unavailableRetries st = 0 ->
  loop (S fuel) st log d =
  loop fuel {| endpoint := endpoint st; unavailableRetries := 1;
               successes := successes st |}
    (log ++ [(endpoint st, TransportUnavailable)]) d'.
Proof.
  intros HDo Hc H0. cbn [recoverLoop]. rewrite HDo, Hc, H0. reflexivity.
Qed.

(** A further transport-unavailable outcome at the endpoint ends the loop
    without error. *)
Lemma recoverLoop_unavailable_again fuel st log d e d' :
  Do d = Returned (e, d') -> classify e = TransportUnavailable ->
  unavailableRetries st <> 0 ->
  loop (S fuel) st log d =
  Done {| recovered := successes st; failure := None;
          attempts := log ++ [(endpoint st, TransportUnavailable)];
          doerAfter := d' |}.
Proof.
  intros HDo Hc Hn. cbn [recoverLoop]. rewrite HDo, Hc.
  destruct (unavailableRetries st); [now elim Hn | reflexivity].
Qed.

(** Load-balancer churn retries the endpoint; the state of the loop, and
    with it the unavailable-retry budget, stays as it was. *)
Lemma recoverLoop_churn fuel st log d e d' :
  Do d = Returned (e, d') -> classify e = LoadBalancerChurn ->
  loop (S fuel) st log d =
  loop fuel st (log ++ [(endpoint st, LoadBalancerChurn)]) d'.
Proof.
  intros HDo Hc. cbn [recoverLoop]. rewrite HDo, Hc. reflexivity.
Qed.

(** A success is counted, the endpoint advances, the budget is restored. *)
Lemma recoverLoop_success fuel st log d e d' :
  Do d = Returned (e, d') -> classify e = Success ->
  loop (S fuel) st log d =
  loop fuel {| endpoint := advance (endpoint st); unavailableRetries := 0;
               successes := S (successes st) |}
    (log ++ [(endpoint st, Success)]) d'.
Proof.
  intros HDo Hc. cbn [recoverLoop]. rewrite HDo, Hc. reflexivity.
Qed.

(** A fatal outcome ends the loop at once. *)
Lemma recoverLoop_fatal fuel st log d e d' err :
  Do d = Returned (e, d') -> classify e = Fatal err ->
  loop (S fuel) st log d =
  Done {| recovered := successes st; failure := Some err;
          attempts := log ++ [(endpoint st, Fatal err)];
          doerAfter := d' |}.
Proof.
  intros HDo Hc. cbn [recoverLoop]. rewrite HDo, Hc. reflexivity.
Qed.

Lemma countSuccess_app (l1 l2 : list (Endpoint * AttemptOutcome)) :
  countSuccess (l1 ++ l2) = countSuccess l1 + countSuccess l2.
Proof.
  induction l1 as [|[ep o] l1 IH]; [reflexivity|].
  cbn. destruct o; rewrite IH; reflexivity.
Qed.

(** A finished run: its history extends the one it started from; the
    attempts before the last are successes, retries and churn, none of them
    fatal, and the count of recovered nodes grew by the successes among
    them; the last attempt is the one that ended the loop, a
    transport-unavailable outcome (then there is no error) or a fatal one
    (then its error is returned). *)
Lemma recoverLoop_done (fuel : nat) :
  forall st log d r,
    loop fuel st log d = Done r ->
    exists new ep o,
      attempts r = (log ++ new ++ [(ep, o)])%list
      /\ recovered r = successes st + countSuccess new
      /\ Forall (fun a => isFatal (snd a) = false) new
      /\ ((o = TransportUnavailable /\ failure r = None)
          \/ (exists err, o = Fatal err /\ failure r = Some err)).
Proof.
  induction fuel as [|fuel IH]; intros st log d r Hrun; [discriminate Hrun|].
  cbn [recoverLoop] in Hrun.
  destruct (Do d) as [[e d']|reason]; [|discriminate Hrun].
  destruct (classify e) as [| | |err] eqn:Hc.
  - apply IH in Hrun. destruct Hrun as (new & ep & o & Ha & Hn & Hnf & Ho).
    exists ((endpoint st, Success) :: new), ep, o. cbn in *.
    rewrite Ha, <- app_assoc. split; [reflexivity|]. split; [lia|].
    split; [constructor; [reflexivity | exact Hnf] | exact Ho].
  - destruct (Nat.eqb (unavailableRetries st) 0).
    + apply IH in Hrun. destruct Hrun as (new & ep & o & Ha & Hn & Hnf & Ho).
      exists ((endpoint st, TransportUnavailable) :: new), ep, o. cbn in *.
      rewrite Ha, <- app_assoc. split; [reflexivity|]. split; [lia|].
      split; [constructor; [reflexivity | exact Hnf] | exact Ho].
    + injection Hrun as <-. exists [], (endpoint st), TransportUnavailable.
      cbn. split; [reflexivity|]. split; [lia|].
      split; [constructor | left; split; reflexivity].
  - apply IH in Hrun. destruct Hrun as (new & ep & o & Ha & Hn & Hnf & Ho).
    exists ((endpoint st, LoadBalancerChurn) :: new), ep, o. cbn in *.
    rewrite Ha, <- app_assoc. split; [reflexivity|]. split; [lia|].
    split; [constructor; [reflexivity | exact Hnf] | exact Ho].
  - injection Hrun as <-. exists [], (endpoint st), (Fatal err).
    cbn. split; [reflexivity|]. split; [lia|].
    split; [constructor | right; eexists; split; reflexivity].
Qed.

(** The retry budget: a run started with at most one unavailable outcome
    counted at its endpoint adds attempts among which no endpoint sees a
    third one. *)
Lemma recoverLoop_retry_budget (fuel : nat) :
  forall st log d r,
    loop fuel st log d = Done r ->
    unavailableRetries st <= 1 ->
    exists new,
      attempts r = (log ++ new)%list
      /\ atMostOneRetry (unavailableRetries st) (map snd new) = true.
Proof.
  induction fuel as [|fuel IH]; intros st log d r Hrun Hle; [discriminate Hrun|].
  cbn [recoverLoop] in Hrun.
  destruct (Do d) as [[e d']|reason]; [|discriminate Hrun].
  destruct (classify e) as [| | |err] eqn:Hc.
  - apply IH in Hrun; [|cbn; lia]. destruct Hrun as (new & Ha & Hb).
    exists ((endpoint st, Success) :: new). rewrite Ha, <- app_assoc.
    split; [reflexivity | exact Hb].
  - destruct (unavailableRetries st) as [|[|n]] eqn:Hu; [| |lia].
    + cbn [Nat.eqb] in Hrun. apply IH in Hrun; [|cbn; lia].
      destruct Hrun as (new & Ha & Hb).
      exists ((endpoint st, TransportUnavailable) :: new).
      rewrite Ha, <- app_assoc. split; [reflexivity | exact Hb].
    + cbn [Nat.eqb] in Hrun. injection Hrun as <-.
      exists [(endpoint st, TransportUnavailable)]. split; reflexivity.
  - apply IH in Hrun; [|exact Hle]. destruct Hrun as (new & Ha & Hb).
    exists ((endpoint st, LoadBalancerChurn) :: new). rewrite Ha, <- app_assoc.
    split; [reflexivity | exact Hb].
  - injection Hrun as <-. exists [(endpoint st, Fatal err)].
    split; reflexivity.
Qed.

(** In a finished run a fatal attempt is the last one. *)
Lemma recoverCall_fatal_last fuel start d r pre ep err post :
  recoverCall Do advance fuel start d = Done r ->
  attempts r = (pre ++ (ep, Fatal err) :: post)%list ->
  post = [] /\ failure r = Some err /\ recovered r = countSuccess pre.
Proof.
  intros Hrun Hat. unfold recoverCall in Hrun. apply recoverLoop_done in Hrun.
  destruct Hrun as (new & ep0 & o & Ha & Hn & Hnf & Ho). cbn in Ha, Hn.
  rewrite Ha in Hat.
  destruct post as [|x post _] using rev_ind.
  - apply app_inj_tail in Hat. destruct Hat as [-> Heq].
    injection Heq as _ ->.
    destruct Ho as [[Hd _] | [err' [Hd Hf]]]; [discriminate Hd|].
    injection Hd as ->. repeat split; assumption.
  - exfalso. rewrite app_comm_cons, app_assoc in Hat.
    apply app_inj_tail in Hat. destruct Hat as [-> _].
    rewrite Forall_forall in Hnf.
    specialize (Hnf (ep, Fatal err)). cbn in Hnf.
    assert (Hin : In (ep, Fatal err) (pre ++ (ep, Fatal err) :: post)%list)
      by (apply in_or_app; right; left; reflexivity).
    apply Hnf in Hin. discriminate Hin.
Qed.

End OrchestratorFacts.

(** A run of the loop on the stub doer that finishes with some fuel
    finishes the same way with any more. *)
Lemma recoverStub_more_fuel (fuel : nat) (tc : testCase) r :
  recoverStub fuel tc = Done r -> forall k, recoverStub (fuel + k) tc = Done r.
Proof. unfold recoverStub, recoverCall. apply recoverLoop_more_fuel. Qed.

(** The model of the loop passes every case of the table of TestRecover. *)
Lemma TestRecover_passes : forall k, forallb (passes (6 + k)) testCases = true.
Proof.
  intros k.
  assert (Hp : forall tc, passes 6 tc = true -> passes (6 + k) tc = true).
  { unfold passes. intros tc. destruct (recoverStub 6 tc) as [r| |] eqn:Hr;
      try discriminate.
    rewrite (recoverStub_more_fuel _ _ _ Hr). trivial. }
  unfold testCases. cbn [forallb].
  rewrite !Hp by reflexivity. reflexivity.
Qed.

(** C1.  A transport-unavailable outcome is retried at most once per
    endpoint.  On [Unavailable, Success] the loop recovers one node and
    returns no error.  On [Unavailable, Unavailable, Success] the second
    unavailable outcome ends the loop without error and without a recovered
    node, after two attempts; the success is still waiting in the doer.
    The same holds after a success, which gives the next endpoint a retry
    of its own.  In every finished run, whatever the doer, no endpoint
    sees a third unavailable outcome; an unavailable outcome is retried
    when the endpoint's counter is zero and ends the loop without error
    otherwise. *)
Theorem unavailable_retried_once :
  (forall k, exists r,
      recoverStub (4 + k) (mkCase [Some unavailableErr; None] 1 false) = Done r
      /\ recovered r = 1 /\ failure r = None)
  /\ (forall k, exists r,
        recoverStub (2 + k)
          (mkCase [Some unavailableErr; Some unavailableErr; None] 0 false) = Done r
        /\ recovered r = 0 /\ failure r = None
        /\ map snd (attempts r) = [TransportUnavailable; TransportUnavailable]
        /\ returns (doerAfter r) = [None])
  /\ (forall k, exists r,
        recoverStub (3 + k)
          (mkCase [None; Some unavailableErr; Some unavailableErr; None] 1 false)
          = Done r
        /\ recovered r = 1 /\ failure r = None /\ returns (doerAfter r) = [None])
  /\ (forall k, exists r,
        recoverStub (6 + k)
          (mkCase [Some unavailableErr; None; Some unavailableErr; None] 2 false)
          = Done r
        /\ recovered r = 2 /\ failure r = None)
  /\ (forall (D Endpoint : Type) (Do : D -> Exec (option error * D))
        (advance : Endpoint -> Endpoint) fuel start d r,
        recoverCall Do advance fuel start d = Done r ->
        atMostOneRetry 0 (map snd (attempts r)) = true)
  /\ (forall (D Endpoint : Type) (Do : D -> Exec (option error * D))
        (advance : Endpoint -> Endpoint) fuel st log d e d',
        Do d = Returned (e, d') -> classify e = TransportUnavailable ->
        recoverLoop Do advance (S fuel) st log d =
        if Nat.eqb (unavailableRetries st) 0 then
          recoverLoop Do advance fuel
            {| endpoint := endpoint st; unavailableRetries := 1;
               successes := successes st |}
            (log ++ [(endpoint st, TransportUnavailable)]) d'
        else
          Done {| recovered := successes st; failure := None;
                  attempts := log ++ [(endpoint st, TransportUnavailable)];
                  doerAfter := d' |}).
Proof.
  split; [|split; [|split; [|split; [|split]]]].
  - intros k. eexists. split.
    + apply (recoverStub_more_fuel 4). reflexivity.
    + split; reflexivity.
  - intros k. eexists. split.
    + apply (recoverStub_more_fuel 2). reflexivity.
    + repeat split.
  - intros k. eexists. split.
    + apply (recoverStub_more_fuel 3). reflexivity.
    + repeat split.
  - intros k. eexists. split.
    + apply (recoverStub_more_fuel 6). reflexivity.
    + repeat split.
  - intros D Endpoint Do advance fuel start d r Hrun.
    unfold recoverCall in Hrun.
    apply recoverLoop_retry_budget in Hrun; [|cbn; lia].
    destruct Hrun as (new & -> & Hb). exact Hb.
  - intros D Endpoint Do advance fuel st log d e d' HDo Hc.
    destruct (Nat.eqb (unavailableRetries st) 0) eqn:H0.
    + apply Nat.eqb_eq in H0. now apply recoverLoop_unavailable_first with (e := e).
    + apply Nat.eqb_neq in H0. now apply recoverLoop_unavailable_again with (e := e).
Qed.

(** C4.  A run of the loop that ends on a transport-unavailable outcome
    returns no error; with no node recovered the command then prints that
    no control-plane nodes in need of recovery were found.  Once a node was
    recovered it prints "Pushed recovery key." and the count of recovered
    nodes, which is the number of successful attempts. *)
Theorem report_of_run {D Endpoint : Type} (Do : D -> Exec (option error * D))
    (advance : Endpoint -> Endpoint) (fuel : nat) (start : Endpoint) (d : D)
    (r : LoopResult D Endpoint) :
  recoverCall Do advance fuel start d = Done r ->
  recovered r = countSuccess (attempts r)
  /\ (forall pre ep, attempts r = (pre ++ [(ep, TransportUnavailable)])%list ->
        failure r = None
        /\ (recovered r = 0 ->
            report r = "No control-plane nodes in need of recovery found."))
  /\ (0 < recovered r ->
        Contains (report r) "Pushed recovery key." = true
        /\ Contains (report r) (Itoa (recovered r)) = true).
Proof.
  intros Hrun. unfold recoverCall in Hrun.
  apply recoverLoop_done in Hrun.
  destruct Hrun as (new & ep & o & Ha & Hn & _ & Ho). cbn in Ha, Hn.
  split; [|split].
  - rewrite Ha, countSuccess_app, Hn.
    destruct Ho as [[-> _] | [err [-> _]]]; cbn; lia.
  - intros pre ep' Hlast. rewrite Ha in Hlast.
    apply app_inj_tail in Hlast. destruct Hlast as [_ Hlast].
    injection Hlast as _ ->.
    destruct Ho as [[_ Hf] | [err [Hd _]]]; [|discriminate Hd].
    split; [exact Hf|]. intros H0. unfold report. rewrite H0, Hf. reflexivity.
  - apply report_contains_count.
Qed.

Lemma report_of_run_witness :
  let r := {| recovered := 0; failure := None;
              attempts := [("192.0.2.90", TransportUnavailable);
                           ("192.0.2.90", TransportUnavailable)];
              doerAfter := {| returns := [Some unavailableErr] |} |} in
  recoverCall stubDoer_Do (fun ep : string => ep) 2 "192.0.2.90"
    {| returns := [Some unavailableErr] |} = Done r
  /\ failure r = None
  /\ report r = "No control-plane nodes in need of recovery found.".
Proof.
  cbv zeta. split; [reflexivity|].
  pose proof (report_of_run stubDoer_Do (fun ep : string => ep) 2 "192.0.2.90"
                {| returns := [Some unavailableErr] |} _ eq_refl)
    as (_ & Hu & _).
  destruct (Hu [("192.0.2.90", TransportUnavailable)] "192.0.2.90" eq_refl)
    as [Hf Hr].
  split; [exact Hf | exact (Hr eq_refl)].
Defined.

(** On the stub doer: a run that recovers two nodes. *)
Example report_two_nodes :
  exists r, recoverStub 4 (mkCase [None; None] 2 false) = Done r
            /\ failure r = None
            /\ report r = "Pushed recovery key. Recovered 2 control-plane nodes.".
Proof. eexists. split; [reflexivity | split; reflexivity]. Qed.

(** On the stub doer the loop always finishes: the stub answers
    unavailable once its outcomes are used up, and two of those in a row
    end the loop. *)
Lemma recoverLoop_stub_terminates {Endpoint} (advance : Endpoint -> Endpoint)
    (rs : list (option error)) :
  rs <> [] ->
  forall st log, exists r,
    recoverLoop stubDoer_Do advance (length rs + 2) st log {| returns := rs |}
    = Done r.
Proof.
  induction rs as [|x rs IH]; intros Hne st log; [now elim Hne|].
  destruct rs as [|y rs].
  - cbn. destruct (classify x); cbn;
      destruct (unavailableRetries st); cbn; eexists; reflexivity.
  - assert (Hy : y :: rs <> []) by discriminate.
    specialize (IH Hy).
    cbn [length Nat.add recoverLoop stubDoer_Do returns].
    change (S (length rs) + 2) with (length (y :: rs) + 2) in IH.
    cbn [length Nat.add] in IH.
    destruct (classify x).
    + apply IH.
    + destruct (Nat.eqb (unavailableRetries st) 0); [apply IH | eexists; reflexivity].
    + apply IH.
    + eexists; reflexivity.
Qed.

Lemma classify_fatal (e : error) :
  classify (Some e) <> TransportUnavailable ->
  classify (Some e) <> LoadBalancerChurn ->
  classify (Some e) = Fatal e.
Proof.
  destruct e as [m|m inner|c m]; try reflexivity.
  destruct c; try reflexivity.
  unfold classify. destruct (HasPrefix m lbErrMessage); intros Hu Hl;
    [now elim Hl | now elim Hu].
Qed.

(** C5.  An outcome that is neither transport-unavailable nor
    load-balancer churn is fatal; a fatal outcome ends the loop at that
    attempt, with its error and the count of nodes recovered so far, and
    the doer is not called again: in every finished run a fatal attempt is
    the last one.  [Fatal] gives no recovered node and the
    error; on [Fatal, Success] the success is still waiting in the doer;
    on [Success, Fatal] the one recovered node is reported with the
    error. *)
Theorem fatal_aborts :
  (forall e : error,
      classify (Some e) <> TransportUnavailable ->
      classify (Some e) <> LoadBalancerChurn ->
      classify (Some e) = Fatal e)
  /\ (forall (D Endpoint : Type) (Do : D -> Exec (option error * D))
        (advance : Endpoint -> Endpoint) fuel st log d e d' err,
        Do d = Returned (e, d') -> classify e = Fatal err ->
        recoverLoop Do advance (S fuel) st log d =
        Done {| recovered := successes st; failure := Some err;
                attempts := log ++ [(endpoint st, Fatal err)];
                doerAfter := d' |})
  /\ (forall (D Endpoint : Type) (Do : D -> Exec (option error * D))
        (advance : Endpoint -> Endpoint) fuel start d r pre ep err post,
        recoverCall Do advance fuel start d = Done r ->
        attempts r = (pre ++ (ep, Fatal err) :: post)%list ->
        post = [] /\ failure r = Some err /\ recovered r = countSuccess pre)
  /\ (forall k,
        recoverStub (1 + k) (mkCase [Some someErr] 0 true) =
        Done {| recovered := 0; failure := Some someErr;
                attempts := [("192.0.2.90", Fatal someErr)];
                doerAfter := {| returns := [Some unavailableErr] |} |})
  /\ (forall k,
        recoverStub (1 + k) (mkCase [Some someErr; None] 0 true) =
        Done {| recovered := 0; failure := Some someErr;
                attempts := [("192.0.2.90", Fatal someErr)];
                doerAfter := {| returns := [None] |} |})
  /\ (forall k,
        recoverStub (2 + k) (mkCase [None; Some someErr] 1 true) =
        Done {| recovered := 1; failure := Some someErr;
                attempts := [("192.0.2.90", Success);
                             ("192.0.2.90", Fatal someErr)];
                doerAfter := {| returns := [Some unavailableErr] |} |}).
Proof.
  split; [exact classify_fatal|].
  split; [intros; now apply recoverLoop_fatal with (e := e)|].
  split; [intros; eapply recoverCall_fatal_last; eassumption|].
  split; [|split]; intros k.
  - apply (recoverStub_more_fuel 1). reflexivity.
  - apply (recoverStub_more_fuel 1). reflexivity.
  - apply (recoverStub_more_fuel 2). reflexivity.
Qed.

(** Any number of load-balancer failures in front of the stub's outcomes
    is retried away, one attempt each, without touching the loop state. *)
Lemma recoverLoop_stub_churn {Endpoint} (advance : Endpoint -> Endpoint)
    (n : nat) (rest : list (option error)) :
  rest <> [] ->
  forall fuel st log, exists log',
    recoverLoop stubDoer_Do advance (n + fuel) st log
      {| returns := repeat (Some lbErr) n ++ rest |}
    = recoverLoop stubDoer_Do advance fuel st log' {| returns := rest |}.
Proof.
  intros Hne. induction n as [|n IH]; intros fuel st log.
  - exists log. reflexivity.
  - cbn [repeat app Nat.add].
    rewrite recoverLoop_churn
      with (e := Some lbErr) (d' := {| returns := repeat (Some lbErr) n ++ rest |}).
    + apply IH.
    + unfold stubDoer_Do. cbn [returns].
      destruct (repeat (Some lbErr) n ++ rest)%list eqn:Hl; [|reflexivity].
      apply app_eq_nil in Hl. now elim Hne.
    + reflexivity.
Qed.

(** C6.  Load-balancer churn is retried on the same endpoint as often as
    it occurs and does not use up the unavailable retry: any number of such
    failures followed by a success recovers one node without error, in
    particular three of them; after three of them an unavailable outcome is
    still retried once; in general the attempt after a churn outcome starts
    from the very state of the loop the failed one started from. *)
Theorem churn_retried :
  (forall n k, exists r,
      recoverStub (n + 3 + k)
        (mkCase (repeat (Some lbErr) n ++ [None]) 1 false) = Done r
      /\ recovered r = 1 /\ failure r = None)
  /\ (forall k, exists r,
        recoverStub (6 + k)
          (mkCase [Some lbErr; Some lbErr; Some lbErr; None] 1 false) = Done r
        /\ recovered r = 1 /\ failure r = None
        /\ map snd (attempts r) =
             [LoadBalancerChurn; LoadBalancerChurn; LoadBalancerChurn; Success;
              TransportUnavailable; TransportUnavailable])
  /\ (forall k, exists r,
        recoverStub (7 + k)
          (mkCase [Some lbErr; Some lbErr; Some lbErr; Some unavailableErr; None]
             1 false) = Done r
        /\ recovered r = 1 /\ failure r = None)
  /\ (forall (D Endpoint : Type) (Do : D -> Exec (option error * D))
        (advance : Endpoint -> Endpoint) fuel st log d e d',
        Do d = Returned (e, d') -> classify e = LoadBalancerChurn ->
        recoverLoop Do advance (S fuel) st log d =
        recoverLoop Do advance fuel st
          (log ++ [(endpoint st, LoadBalancerChurn)]) d').
Proof.
  split; [|split; [|split]].
  - intros n k.
    destruct (recoverLoop_stub_churn (fun ep : string => ep) n [None]
                ltac:(discriminate) 3
                {| endpoint := "192.0.2.90"; unavailableRetries := 0;
                   successes := 0 |} []) as [log' Hrun].
    eexists. split.
    + apply (recoverStub_more_fuel (n + 3)).
      unfold recoverStub, recoverCall, mkCase. cbn [doer tcEndpoint].
      rewrite Hrun. reflexivity.
    + split; reflexivity.
  - intros k. eexists. split.
    + apply (recoverStub_more_fuel 6). reflexivity.
    + repeat split.
  - intros k. eexists. split.
    + apply (recoverStub_more_fuel 7). reflexivity.
    + repeat split.
  - intros. now apply recoverLoop_churn with (e := e).
Qed.

(** * Further properties of the code *)

Import GoStrings HistoryMore.

(** ** [IssueRejoinTicket] *)

(** X1.  IssueRejoinTicket only derives keys: it asks the key getter for the
    measurement secret and then for the disk key of the request's UUID and
    calls nothing else; it never panics; it answers with both keys when
    both derivations succeed and with an Internal status and no response
    when one fails, the second derivation being skipped when the first
    fails. *)
Theorem IssueRejoinTicket_only_derives `{Externals} (s : Server) (req : IssueRejoinTicketRequest) :
  let tr := fst (IssueRejoinTicket s req) in
  let out := snd (IssueRejoinTicket s req) in
  let secret := GetDataKey s MeasurementSecretContext DerivedKeyLengthDefault in
  let key := GetDataKey s (RejoinDiskUuid req) JoinService.StateDiskKeyLength in
  forallb (fun ev => onlyDerives (call ev)) tr = true
  /\ match snd secret, snd key with
     | None, None =>
         out = Returned (Some {| RejoinStateDiskKey := fst key;
                                 RejoinMeasurementSecret := fst secret |}, None)
         /\ map call tr =
            [CallGetDataKey MeasurementSecretContext DerivedKeyLengthDefault;
             CallGetDataKey (RejoinDiskUuid req) JoinService.StateDiskKeyLength]
     | None, Some e =>
         out = Returned (None, Some (statusError Internal
                 ("unable to get key for stateful disk: " ++ Error e)))
         /\ length tr = 2
     | Some e, _ =>
         out = Returned (None, Some (statusError Internal
                 ("unable to get measurement secret: " ++ Error e)))
         /\ map call tr =
            [CallGetDataKey MeasurementSecretContext DerivedKeyLengthDefault]
     end.
Proof.
  cbv zeta.
  destruct (IssueRejoinTicket s req) as [tr out] eqn:E. cbn [fst snd].
  handler_paths E; cbn [fst snd]; repeat split.
Qed.

(** ** [IssueJoinTicket]: what the response holds and what was called *)

(** X2.  The control-plane files are loaded only for control-plane nodes: a
    worker's request never triggers the call, and its response has no
    files; a control-plane node's response holds one entry per entry of
    the loaded map, with its name and data, an empty map giving an empty
    bundle. *)
Theorem IssueJoinTicket_control_plane_files `{Externals} (s : Server)
    (req : IssueJoinTicketRequest) :
  let tr := fst (IssueJoinTicket s req) in
  (IsControlPlane req = false ->
     existsb (fun ev => loadsControlPlaneFiles (call ev)) tr = false)
  /\ (forall resp, snd (IssueJoinTicket s req) = Returned (Some resp, None) ->
        existsb (fun ev => loadsControlPlaneFiles (call ev)) tr = IsControlPlane req
        /\ ControlPlaneFiles resp =
             (if IsControlPlane req
              then filesOfMap (fst (GetControlPlaneCertificatesAndKeys s))
              else [])
        /\ (IsControlPlane req = true ->
              map Name (ControlPlaneFiles resp) =
                map fst (fst (GetControlPlaneCertificatesAndKeys s))
              /\ map Data (ControlPlaneFiles resp) =
                   map snd (fst (GetControlPlaneCertificatesAndKeys s)))).
Proof.
  destruct (IssueJoinTicket s req) as [tr out] eqn:E. cbn [fst snd].
  handler_paths E.
  all: split; [intros Hcp; try discriminate Hcp; reflexivity|].
  all: intros resp Hr; try discriminate Hr.
  all: injection Hr as <-; cbn [ControlPlaneFiles fst snd].
  all: repeat split; try reflexivity; try discriminate.
  all: unfold filesOfMap; rewrite !map_map; reflexivity.
Qed.

(** X3.  The node is registered under the name the CA extracts from the
    request's CSR, with the components reference read from the NodeVersion
    resource and the request's control-plane flag; the component list of
    the response is the one fetched under that same reference. *)
Theorem IssueJoinTicket_registers_what_it_returns `{Externals} (s : Server)
    (req : IssueJoinTicketRequest) :
  let tr := fst (IssueJoinTicket s req) in
  let ref := fst (GetK8sComponentsRefFromNodeVersionCRD s NodeVersionResourceName) in
  (forall n c cp e,
      In {| call := CallAddNodeToJoiningNodes n c cp; err := e |} tr ->
      n = fst (GetNodeNameFromCSR s (CertificateRequest req))
      /\ c = ref /\ cp = IsControlPlane req
      /\ e = AddNodeToJoiningNodes s n c cp
      /\ In {| call := CallGetComponents ref; err := None |} tr)
  /\ (forall resp, snd (IssueJoinTicket s req) = Returned (Some resp, None) ->
        KubernetesComponents resp = fst (GetComponents s ref)
        /\ In {| call := CallAddNodeToJoiningNodes
                           (fst (GetNodeNameFromCSR s (CertificateRequest req)))
                           ref (IsControlPlane req);
                 err := None |} tr).
Proof.
  destruct (IssueJoinTicket s req) as [tr out] eqn:E. cbn [fst snd].
  handler_paths E; cbn [fst snd].
  all: split;
    [ intros n' c' cp' e'; event_in;
      repeat match goal with
             | Heq : _ = (_, _) |- _ => rewrite Heq
             | Heq : AddNodeToJoiningNodes _ _ _ _ = _ |- _ => rewrite Heq
             end; cbn [fst snd In]; intuition auto
    | intros resp Hr; try discriminate Hr; injection Hr as <-;
      cbn [KubernetesComponents];
      repeat match goal with
             | Heq : _ = (_, _) |- _ => rewrite Heq
             end; cbn [fst snd In]; intuition auto ].
Qed.

(** X4.  The join token is created before the CSR is looked at: whenever the
    CA was asked to sign the CSR or to extract the node name, the token
    getter had already been called, with the configured lifetime, and had
    answered without error.  A request with a CSR the CA rejects has thus
    created a token all the same. *)
Theorem IssueJoinTicket_token_before_CSR `{Externals} (s : Server)
    (req : IssueJoinTicketRequest) :
  let tr := fst (IssueJoinTicket s req) in
  existsb (fun ev => readsCSR (call ev)) tr = true ->
  In {| call := CallGetJoinToken KubernetesJoinTokenTTL; err := None |} tr
  /\ allBefore createsToken readsCSR tr = true
  /\ snd (GetJoinToken s KubernetesJoinTokenTTL) = None.
Proof.
  destruct (IssueJoinTicket s req) as [tr out] eqn:E. cbn [fst snd].
  handler_paths E; cbn [fst snd].
  all: intros Hcsr; try discriminate Hcsr.
  all: repeat split; cbn [In]; intuition auto.
Qed.

Lemma IssueJoinTicket_token_before_CSR_witness :
  existsb (fun ev => readsCSR (call ev))
    (fst (@IssueJoinTicket stubExternals (stubServer (Some goodArgs) None) badCSRReq))
  = true
  /\ In {| call := CallGetJoinToken (@KubernetesJoinTokenTTL stubExternals);
           err := None |}
       (fst (@IssueJoinTicket stubExternals (stubServer (Some goodArgs) None) badCSRReq))
  /\ (exists e,
        snd (@IssueJoinTicket stubExternals (stubServer (Some goodArgs) None) badCSRReq)
        = Returned (None, Some e)).
Proof.
  split; [reflexivity|].
  split.
  - apply (@IssueJoinTicket_token_before_CSR stubExternals
             (stubServer (Some goodArgs) None) badCSRReq).
    reflexivity.
  - eexists. reflexivity.
Defined.

(** [strings.Split] never returns an empty slice. *)
Lemma Split_aux_nonempty (sep : ascii) (s cur : string) : Split_aux sep cur s <> [].
Proof.
  revert cur. induction s as [|c s IH]; intros cur; cbn.
  - discriminate.
  - destruct (Ascii.eqb c sep); [discriminate | apply IH].
Qed.

(** It returns one piece more than there are separators. *)
Lemma Split_aux_length (sep : ascii) (s cur : string) :
  length (Split_aux sep cur s) = S (Count s sep).
Proof.
  revert cur. induction s as [|c s IH]; intros cur; cbn; [reflexivity|].
  destruct (Ascii.eqb c sep); cbn; rewrite IH; reflexivity.
Qed.

Lemma append_assoc_char (a : string) (c : ascii) (b : string) :
  (a ++ String c EmptyString) ++ b = a ++ String c b.
Proof. induction a as [|x a IH]; cbn; [reflexivity | now rewrite IH]. Qed.

(** Joining the pieces with the separator gives the string back. *)
Lemma Join_Split_aux (sep : ascii) (s cur : string) :
  Join (Split_aux sep cur s) sep = cur ++ s.
Proof.
  revert cur. induction s as [|c s IH]; intros cur; cbn [Split_aux].
  - cbn [Join]. induction cur as [|x cur IHc]; cbn; [reflexivity | now rewrite <- IHc].
  - destruct (Ascii.eqb c sep) eqn:Hc.
    + apply Ascii.eqb_eq in Hc. subst c.
      cbn [Join]. destruct (Split_aux sep EmptyString s) eqn:Hs.
      * now apply Split_aux_nonempty in Hs.
      * rewrite <- Hs, IH. reflexivity.
    + rewrite IH. apply append_assoc_char.
Qed.

Lemma Join_Split (s : string) (sep : ascii) : Join (Split s sep) sep = s.
Proof. unfold Split. now rewrite Join_Split_aux. Qed.

(** X5.  The host certificate is issued for the caller's principals followed
    by the comma-separated entries of the additional-principals file: the
    caller's principals come first and unchanged, the file adds one
    principal more than it has commas (an empty file adds the empty
    principal), and joining the added principals with commas gives the file
    back. *)
Theorem IssueJoinTicket_principals `{Externals} (s : Server)
    (req : IssueJoinTicketRequest) (ps : list string) (e : option error) :
  let file :=
    string_of_list_byte (fst (fileHandler_Read s SSHAdditionalPrincipalsPath)) in
  let own := HostCertificatePrincipals req in
  In {| call := CallGenerateSSHHostCertificate ps; err := e |}
     (fst (IssueJoinTicket s req)) ->
  ps = (own ++ Split file ",")%list
  /\ firstn (length own) ps = own
  /\ length ps = length own + S (Count file ",")
  /\ Join (skipn (length own) ps) "," = file
  /\ (file = EmptyString -> ps = (own ++ [EmptyString])%list).
Proof.
  cbv zeta.
  assert (Hps : In {| call := CallGenerateSSHHostCertificate ps; err := e |}
                  (fst (IssueJoinTicket s req)) ->
                ps = (HostCertificatePrincipals req
                        ++ Split (string_of_list_byte
                                    (fst (fileHandler_Read s SSHAdditionalPrincipalsPath)))
                             ",")%list).
  { destruct (IssueJoinTicket s req) as [tr out] eqn:E. cbn [fst].
    handler_paths E; cbn [fst snd]; event_in; reflexivity. }
  intros Hin. apply Hps in Hin. subst ps.
  split; [reflexivity|].
  split; [now rewrite firstn_app, firstn_all, Nat.sub_diag, app_nil_r|].
  split; [rewrite length_app; unfold Split; now rewrite Split_aux_length|].
  split.
  - rewrite skipn_app, skipn_all, Nat.sub_diag. cbn [skipn app]. apply Join_Split.
  - intros ->. reflexivity.
Qed.

Lemma IssueJoinTicket_principals_witness :
  In {| call := CallGenerateSSHHostCertificate ["node-1"; "root"; "admin"];
        err := None |}
     (fst (@IssueJoinTicket stubExternals (stubServer (Some goodArgs) None) workerReq))
  /\ ["node-1"; "root"; "admin"] = (["node-1"] ++ Split "root,admin" ",")%list
  /\ length ["node-1"; "root"; "admin"] = 1 + S (Count "root,admin" ",").
Proof.
  assert (Hin : In {| call := CallGenerateSSHHostCertificate ["node-1"; "root"; "admin"];
                      err := None |}
                  (fst (@IssueJoinTicket stubExternals
                          (stubServer (Some goodArgs) None) workerReq))).
  { cbn. do 6 right. left. reflexivity. }
  split; [exact Hin|].
  destruct (@IssueJoinTicket_principals stubExternals
              (stubServer (Some goodArgs) None) workerReq _ _ Hin)
    as (Hps & _ & Hlen & _).
  split; [exact Hps | exact Hlen].
Defined.

(** X6.  The emergency CA is stateless: the CA public key of a response is
    that of the key generated from the seed the key getter derives under
    the SSH-CA label, and the host certificate of the same response is the
    one that very CA signed for the request's host key and the principal
    list.  The token fields are those of the join token result, the CA
    certificate hash its first one; the Kubernetes version is never set. *)
Theorem IssueJoinTicket_response_contents `{Externals} (s : Server)
    (req : IssueJoinTicketRequest) (resp : IssueJoinTicketResponse) :
  let seed := fst (GetDataKey s SSHCAKeySuffix ed25519_SeedSize) in
  let ca := fst (GenerateEmergencySSHCAKey seed) in
  let file :=
    string_of_list_byte (fst (fileHandler_Read s SSHAdditionalPrincipalsPath)) in
  let principals := (HostCertificatePrincipals req ++ Split file ",")%list in
  let hostKey := fst (ParsePublicKey (HostPublicKey req)) in
  snd (IssueJoinTicket s req) = Returned (Some resp, None) ->
  AuthorizedCaPublicKey resp = MarshalAuthorizedKey (Signer_PublicKey ca)
  /\ HostCertificate resp =
       MarshalAuthorizedKey
         (Certificate_PublicKey
            (fst (GenerateSSHHostCertificate principals hostKey ca)))
  /\ snd (GenerateSSHHostCertificate principals hostKey ca) = None
  /\ KubernetesVersion resp = EmptyString
  /\ (exists args,
        fst (GetJoinToken s KubernetesJoinTokenTTL) = Some args
        /\ ApiServerEndpoint resp = APIServerEndpoint args
        /\ JoinToken resp = Token args
        /\ hd_error (CACertHashes args) = Some (DiscoveryTokenCaCertHash resp)).
Proof.
  cbv zeta. intros Hr.
  destruct (IssueJoinTicket s req) as [tr out] eqn:E. cbn [snd] in Hr.
  handler_paths E; cbn [fst snd] in *; try discriminate Hr.
  all: injection Hr as <-; cbn.
  all: repeat match goal with
              | Heq : _ = (_, _) |- _ => rewrite Heq; cbn [fst snd]
              end.
  all: repeat split.
  all: eexists; split; [reflexivity|];
       repeat match goal with
              | Heq : CACertHashes _ = _ |- _ => rewrite Heq
              end; repeat split.
Qed.

Lemma IssueJoinTicket_response_contents_witness :
  exists resp,
    snd (@IssueJoinTicket stubExternals (stubServer (Some goodArgs) None) workerReq)
    = Returned (Some resp, None)
    /\ AuthorizedCaPublicKey resp =
         fst (stubDataKey (@SSHCAKeySuffix stubExternals) ed25519_SeedSize)
    /\ KubernetesVersion resp = EmptyString
    /\ DiscoveryTokenCaCertHash resp = "sha256:1f0e".
Proof.
  eexists. split; [reflexivity|].
  destruct (@IssueJoinTicket_response_contents stubExternals
              (stubServer (Some goodArgs) None) workerReq _ eq_refl)
    as (Hca & _ & _ & Hv & _).
  split; [exact Hca|]. split; [exact Hv | reflexivity].
Defined.

(** X7.  The handler stops at the first call that fails: when it returns an
    error, the failed call is the last of its history and the only one that
    failed, and the message of the returned Internal status ends with that
    call's error text. *)
Theorem IssueJoinTicket_stops_at_first_failure `{Externals} (s : Server)
    (req : IssueJoinTicketRequest) (e : error) :
  snd (IssueJoinTicket s req) = Returned (None, Some e) ->
  exists pre c cause prefix,
    fst (IssueJoinTicket s req) = (pre ++ [{| call := c; err := Some cause |}])%list
    /\ existsb failed pre = false
    /\ e = statusError Internal (prefix ++ Error cause).
Proof.
  intros Hr.
  destruct (IssueJoinTicket s req) as [tr out] eqn:E. cbn [fst snd] in *.
  handler_paths E; cbn [fst snd] in *; try discriminate Hr.
  all: injection Hr as <-.
  all: match goal with
       | |- exists pre c cause prefix,
           ?tr = _ /\ _ /\ status_Errorf Internal ?p (fmt_Errorf_w ?q ?x) = _ =>
           exists (removelast tr), (call (last tr {| call := CallGetCertificate; err := None |})),
                  x, (p ++ q)
       | |- exists pre c cause prefix,
           ?tr = _ /\ _ /\ status_Errorf Internal ?p ?x = _ =>
           exists (removelast tr), (call (last tr {| call := CallGetCertificate; err := None |})),
                  x, p
       end.
  all: split; [reflexivity|]; split; [reflexivity|].
  all: unfold status_Errorf, fmt_Errorf_w; cbn [Error]; try reflexivity.
  all: now rewrite <- append_assoc.
Qed.

Lemma IssueJoinTicket_stops_at_first_failure_witness :
  let e := statusError Internal
             "getting node name from CSR: no node name in certificate request" in
  snd (@IssueJoinTicket stubExternals namelessCAServer workerReq)
  = Returned (None, Some e)
  /\ exists pre c cause prefix,
       fst (@IssueJoinTicket stubExternals namelessCAServer workerReq)
       = (pre ++ [{| call := c; err := Some cause |}])%list
       /\ existsb failed pre = false
       /\ e = statusError Internal (prefix ++ Error cause).
Proof.
  cbv zeta. split; [reflexivity|].
  exact (@IssueJoinTicket_stops_at_first_failure stubExternals
           namelessCAServer workerReq _ eq_refl).
Defined.

(** ** The stub doer of recover_test.go *)

(** X8.  A stub doer set up with at least one outcome never panics: any number
    of calls hands out the listed outcomes in order and, once they are used
    up, the unavailable status for every further call; the stub is never
    left without an outcome.  Set up with none, its first call panics. *)
Theorem stubDoer_stream (rs : list (option error)) (n : nat) :
  rs <> [] ->
  exists d',
    StubDoer.calls n {| returns := rs |}
    = Returned ((firstn n rs ++ repeat (Some unavailableErr) (n - length rs))%list, d')
    /\ returns d' =
         (if Nat.ltb n (length rs) then skipn n rs else [Some unavailableErr])
    /\ returns d' <> [].
Proof.
  revert rs. induction n as [|n IH]; intros rs Hne.
  - exists {| returns := rs |}. cbn.
    destruct rs; [now elim Hne | repeat split; discriminate].
  - destruct rs as [|e [|r rest]]; [now elim Hne| |].
    + destruct (IH [Some unavailableErr]) as (d' & Hc & Hr & Hn); [discriminate|].
      exists d'. cbn [StubDoer.calls stubDoer_Do returns].
      change (statusError Unavailable "unavailable") with unavailableErr.
      rewrite Hc. split; [|split; [|exact Hn]].
      * do 2 f_equal. cbn [length Nat.sub firstn app].
        rewrite firstn_nil, Nat.sub_0_r. cbn [app]. f_equal.
        destruct n as [|n]; [reflexivity|].
        cbn [firstn Nat.sub app repeat]. now rewrite firstn_nil, Nat.sub_0_r.
      * rewrite Hr. cbn [length]. destruct n as [|[|n]]; reflexivity.
    + destruct (IH (r :: rest)) as (d' & Hc & Hr & Hn); [discriminate|].
      exists d'. cbn [StubDoer.calls stubDoer_Do returns]. rewrite Hc.
      split; [reflexivity|]. split; [|exact Hn].
      rewrite Hr. reflexivity.
Qed.

Lemma stubDoer_stream_witness :
  [Some lbErr; None] <> []
  /\ exists d',
       StubDoer.calls 4 {| returns := [Some lbErr; None] |}
       = Returned ([Some lbErr; None; Some unavailableErr; Some unavailableErr], d')
       /\ returns d' = [Some unavailableErr].
Proof.
  split; [discriminate|].
  destruct (stubDoer_stream [Some lbErr; None] 4 ltac:(discriminate))
    as (d' & Hc & Hr & _).
  exists d'. split; [exact Hc | exact Hr].
Defined.

(** A stub doer set up without outcomes panics on its first call. *)
Example stubDoer_empty_panics :
  stubDoer_Do {| returns := [] |} = Panicked "index out of range [0] with length 0".
Proof. reflexivity. Qed.

(** ** Node names: [k8sCompliantHostname] *)

Section HostnameFacts.
Import Hostname.

Example k8sCompliantHostname_normalises :
  @k8sCompliantHostname identityUnicode "My_Node-1.Example" =
  ("my-node-1.example", None).
Proof. reflexivity. Qed.

Example k8sCompliantHostname_rejects :
  @k8sCompliantHostname identityUnicode "_node" =
  ("", Some (errorString "failed to generate a Kubernetes compliant hostname for _node")).
Proof. reflexivity. Qed.

(** *** What the matcher accepts, by the shape of the expression *)

Lemma MatchString_NoMatch (s : string) : MatchString NoMatch s = false.
Proof. induction s as [|c s IH]; [reflexivity | exact IH]. Qed.

Lemma MatchString_Eps (s : string) : MatchString Eps s = true <-> s = EmptyString.
Proof.
  destruct s as [|c s]; cbn.
  - tauto.
  - rewrite MatchString_NoMatch. split; discriminate.
Qed.

Lemma MatchString_Alt (a b : regex) (s : string) :
  MatchString (Alt a b) s = MatchString a s || MatchString b s.
Proof.
  revert a b. induction s as [|c s IH]; intros a b; [reflexivity|].
  cbn. apply IH.
Qed.

Lemma MatchString_Chars (k : CharClass) (s : string) :
  MatchString (Chars k) s = true <->
  exists c, s = String c EmptyString /\ inClass k c = true.
Proof.
  destruct s as [|c s]; cbn.
  - split; [discriminate | intros (c & Hc & _); discriminate Hc].
  - destruct (inClass k c) eqn:Hk.
    + rewrite MatchString_Eps. split.
      * intros ->. now exists c.
      * intros (c' & Hc & _). now injection Hc as _ ->.
    + rewrite MatchString_NoMatch. split; [discriminate|].
      intros (c' & Hc & Hk'). injection Hc as -> _. congruence.
Qed.

Lemma MatchString_Seq (a b : regex) (s : string) :
  MatchString (Seq a b) s = true <->
  exists s1 s2, s = s1 ++ s2 /\ MatchString a s1 = true /\ MatchString b s2 = true.
Proof.
  revert a. induction s as [|c s IH]; intros a.
  - cbn. rewrite andb_true_iff. split.
    + intros [Ha Hb]. now exists EmptyString, EmptyString.
    + intros (s1 & s2 & Hs & Ha & Hb).
      destruct s1; [|discriminate Hs]. destruct s2; [|discriminate Hs].
      now split.
  - cbn [MatchString deriv]. split.
    + intros Hm. destruct (nullable a) eqn:Hn.
      * rewrite MatchString_Alt in Hm. apply orb_true_iff in Hm.
        destruct Hm as [Hm | Hm].
        -- apply IH in Hm. destruct Hm as (s1 & s2 & -> & Ha & Hb).
           now exists (String c s1), s2.
        -- exists EmptyString, (String c s). now repeat split.
      * apply IH in Hm. destruct Hm as (s1 & s2 & -> & Ha & Hb).
        now exists (String c s1), s2.
    + intros (s1 & s2 & Hs & Ha & Hb). destruct s1 as [|c1 s1].
      * cbn in Hs, Ha. subst s2. rewrite Ha, MatchString_Alt.
        apply orb_true_iff. right. exact Hb.
      * cbn in Hs. injection Hs as <- ->. cbn in Ha.
        assert (Hseq : MatchString (Seq (deriv c a) b) (s1 ++ s2) = true)
          by (apply IH; now exists s1, s2).
        destruct (nullable a); [|exact Hseq].
        rewrite MatchString_Alt, Hseq. reflexivity.
Qed.

Lemma MatchString_Star (a : regex) (s : string) :
  MatchString (Star a) s = true <->
  s = EmptyString
  \/ exists c s1 s2, s = String c (s1 ++ s2)
                     /\ MatchString a (String c s1) = true
                     /\ MatchString (Star a) s2 = true.
Proof.
  destruct s as [|c s].
  - split; [now left | reflexivity].
  - cbn [MatchString deriv]. rewrite MatchString_Seq. split.
    + intros (s1 & s2 & -> & Ha & Hb). right. now exists c, s1, s2.
    + intros [Hs | (c' & s1 & s2 & Hs & Ha & Hb)]; [discriminate Hs|].
      injection Hs as <- ->. now exists s1, s2.
Qed.

Lemma MatchString_Star_Chars (k : CharClass) (s : string) :
  MatchString (Star (Chars k)) s = true <-> allBytes (inClass k) s = true.
Proof.
  induction s as [|c s IH]; [cbn; tauto|].
  cbn [MatchString deriv allBytes]. rewrite MatchString_Seq, andb_true_iff. split.
  - intros (s1 & s2 & -> & Ha & Hb). destruct (inClass k c).
    + apply MatchString_Eps in Ha. subst s1. split; [reflexivity | now apply IH].
    + now rewrite MatchString_NoMatch in Ha.
  - intros [Hk Hs]. rewrite Hk. exists EmptyString, s.
    split; [reflexivity|]. split; [reflexivity | now apply IH].
Qed.

Lemma append_nil_r (s : string) : s ++ EmptyString = s.
Proof. induction s as [|c s IH]; cbn; [reflexivity | now rewrite IH]. Qed.

Lemma allBytes_app (p : ascii -> bool) (a b : string) :
  allBytes p (a ++ b) = allBytes p a && allBytes p b.
Proof.
  induction a as [|c a IH]; cbn; [reflexivity|].
  now rewrite IH, andb_assoc.
Qed.

Lemma lastByte_snoc (c : ascii) (m : string) (a : ascii) :
  lastByte c (m ++ String a EmptyString) = a.
Proof. revert c. induction m as [|x m IH]; intros c; cbn; [reflexivity | apply IH]. Qed.

Lemma string_snoc (c : ascii) (rest : string) :
  exists m, String c rest = m ++ String (lastByte c rest) EmptyString.
Proof.
  revert c. induction rest as [|x rest IH]; intros c.
  - now exists EmptyString.
  - destruct (IH x) as [m Hm]. exists (String c m). cbn [append lastByte].
    now rewrite <- Hm.
Qed.

Lemma LowerDigit_DashLowerDigit (c : ascii) :
  inClass LowerDigit c = true -> inClass DashLowerDigit c = true.
Proof.
  unfold inClass. intros Hc. rewrite <- orb_assoc, Hc. apply orb_true_r.
Qed.

(** The label part of the expression accepts the lower-case DNS labels. *)
Lemma MatchString_label (l : string) :
  MatchString labelRegex l = true <-> validLabel l = true.
Proof.
  unfold labelRegex, Opt. rewrite MatchString_Seq. split.
  - intros (s1 & s2 & -> & H1 & H2).
    apply MatchString_Chars in H1. destruct H1 as (c & -> & Hc).
    rewrite MatchString_Alt in H2. apply orb_true_iff in H2.
    cbn [append validLabel]. rewrite Hc. destruct H2 as [H2 | H2].
    + apply MatchString_Seq in H2. destruct H2 as (m & t & -> & Hm & Ht).
      apply MatchString_Star_Chars in Hm.
      apply MatchString_Chars in Ht. destruct Ht as (a & -> & Ha).
      rewrite allBytes_app, Hm, lastByte_snoc, Ha. cbn [allBytes].
      now rewrite (LowerDigit_DashLowerDigit a Ha).
    + apply MatchString_Eps in H2. subst s2. cbn [allBytes lastByte].
      now rewrite Hc.
  - destruct l as [|c rest]; [discriminate|]. cbn [validLabel].
    rewrite !andb_true_iff. intros [[Hc Hrest] Hlast].
    exists (String c EmptyString), rest. split; [reflexivity|].
    split; [apply MatchString_Chars; now exists c|].
    rewrite MatchString_Alt. apply orb_true_iff.
    destruct rest as [|x rest]; [now right | left].
    destruct (string_snoc x rest) as [m Hm].
    cbn [lastByte] in Hlast. rewrite Hm in Hrest |- *.
    rewrite allBytes_app in Hrest. apply andb_true_iff in Hrest.
    apply MatchString_Seq. exists m, (String (lastByte x rest) EmptyString).
    split; [reflexivity|]. split.
    + apply MatchString_Star_Chars. tauto.
    + apply MatchString_Chars. now eexists.
Qed.

Local Notation "'tailRegex'" := (Star (Seq (Chars LiteralDot) labelRegex)).

Lemma MatchString_dot_label (c : ascii) (s : string) :
  MatchString (Seq (Chars LiteralDot) labelRegex) (String c s) = true <->
  c = "."%char /\ validLabel s = true.
Proof.
  rewrite MatchString_Seq. split.
  - intros (u & v & Huv & Hu & Hv).
    apply MatchString_Chars in Hu. destruct Hu as (d & -> & Hd).
    cbn in Huv, Hd. injection Huv as -> ->.
    apply Ascii.eqb_eq in Hd. split; [exact Hd | now apply MatchString_label].
  - intros [-> Hs]. exists (String "." EmptyString), s.
    split; [reflexivity|]. split; [reflexivity | now apply MatchString_label].
Qed.

Lemma MatchString_tail_of_labels (labels : list string) :
  forallb validLabel labels = true ->
  MatchString tailRegex (HostnameSpec.dotLabels labels) = true.
Proof.
  induction labels as [|l labels IH]; [reflexivity|].
  cbn [forallb HostnameSpec.dotLabels]. rewrite andb_true_iff. intros [Hl Hls].
  apply MatchString_Star. right.
  exists "."%char, l, (HostnameSpec.dotLabels labels).
  split; [reflexivity|]. split; [now apply MatchString_dot_label | now apply IH].
Qed.

Lemma length_append (a b : string) :
  String.length (a ++ b) = String.length a + String.length b.
Proof. induction a as [|c a IH]; cbn; [reflexivity | now rewrite IH]. Qed.

Lemma MatchString_tail_labels (n : nat) :
  forall t, String.length t <= n ->
    MatchString tailRegex t = true ->
    exists labels, t = HostnameSpec.dotLabels labels
                   /\ forallb validLabel labels = true.
Proof.
  induction n as [|n IH]; intros t Hlen Hm.
  - destruct t; [|cbn in Hlen; lia]. now exists [].
  - apply MatchString_Star in Hm.
    destruct Hm as [-> | (c & s1 & s2 & -> & H1 & H2)]; [now exists []|].
    apply MatchString_dot_label in H1. destruct H1 as [-> Hl].
    cbn in Hlen. rewrite length_append in Hlen.
    destruct (IH s2) as (labels & -> & Hls); [lia | exact H2 |].
    exists (s1 :: labels). cbn. now rewrite Hl, Hls.
Qed.

(** A compliant hostname is a label followed by dotted labels. *)
Lemma MatchString_hostname_labels (s : string) :
  MatchString validHostnameRegex s = true <->
  exists l labels,
    s = l ++ HostnameSpec.dotLabels labels
    /\ forallb validLabel (l :: labels) = true.
Proof.
  unfold validHostnameRegex. rewrite MatchString_Seq. split.
  - intros (l & t & -> & Hl & Ht).
    apply MatchString_label in Hl.
    apply (MatchString_tail_labels (String.length t)) in Ht; [|lia].
    destruct Ht as (labels & -> & Hls).
    exists l, labels. cbn. now rewrite Hl, Hls.
  - intros (l & labels & -> & Hv). cbn in Hv. apply andb_true_iff in Hv.
    exists l, (HostnameSpec.dotLabels labels). split; [reflexivity|].
    split; [now apply MatchString_label | now apply MatchString_tail_of_labels].
Qed.

(** *** Labels and [strings.Split] *)

Lemma ascii_all (P : ascii -> bool) :
  forallb P HostnameSpec.allAscii = true -> forall c, P c = true.
Proof.
  intros Hall c. rewrite forallb_forall in Hall. apply Hall.
  rewrite <- (ascii_nat_embedding c). unfold HostnameSpec.allAscii.
  apply in_map, in_seq. pose proof (nat_ascii_bounded c). lia.
Qed.

Lemma hostByte_plain (c : ascii) :
  HostnameSpec.hostByte c = true ->
  Nat.ltb (nat_of_ascii c) 128 = true
  /\ lowerByte c = c
  /\ Ascii.eqb c "_" = false.
Proof.
  pose proof (ascii_all
    (fun c => implb (HostnameSpec.hostByte c)
                (Nat.ltb (nat_of_ascii c) 128
                 && Ascii.eqb (lowerByte c) c
                 && negb (Ascii.eqb c "_")))) as Hall.
  specialize (Hall ltac:(vm_compute; reflexivity) c). cbv beta in Hall.
  intros Hc. rewrite Hc in Hall. cbn [implb] in Hall.
  apply andb_true_iff in Hall. destruct Hall as [Hall Hu].
  apply andb_true_iff in Hall. destruct Hall as [Hlt Hl].
  apply Ascii.eqb_eq in Hl. apply negb_true_iff in Hu. tauto.
Qed.

Lemma DashLowerDigit_not_dot (c : ascii) :
  inClass DashLowerDigit c = true -> Ascii.eqb c "." = false.
Proof.
  destruct (Ascii.eqb_spec c "."%char) as [->|]; [discriminate | reflexivity].
Qed.

Lemma allBytes_impl (p q : ascii -> bool) (s : string) :
  (forall c, p c = true -> q c = true) ->
  allBytes p s = true -> allBytes q s = true.
Proof.
  intros Hpq. induction s as [|c s IH]; [reflexivity|].
  cbn. rewrite !andb_true_iff. intros [Hc Hs]. split; [now apply Hpq | now apply IH].
Qed.

Lemma validLabel_bytes (l : string) :
  validLabel l = true -> allBytes (inClass DashLowerDigit) l = true.
Proof.
  destruct l as [|c rest]; [discriminate|]. cbn [validLabel allBytes].
  rewrite !andb_true_iff. intros [[Hc Hrest] _].
  split; [now apply LowerDigit_DashLowerDigit | exact Hrest].
Qed.

Lemma Split_aux_skip (sep : ascii) (l s cur : string) :
  allBytes (fun c => negb (Ascii.eqb c sep)) l = true ->
  Split_aux sep cur (l ++ s) = Split_aux sep (cur ++ l) s.
Proof.
  revert cur. induction l as [|c l IH]; intros cur Hl.
  - now rewrite append_nil_r.
  - cbn in Hl. apply andb_true_iff in Hl. destruct Hl as [Hc Hl].
    apply negb_true_iff in Hc. cbn [append Split_aux]. rewrite Hc.
    rewrite IH by exact Hl. now rewrite append_assoc_char.
Qed.

Lemma Split_labels (labels : list string) :
  forall l, forallb validLabel (l :: labels) = true ->
    Split (l ++ HostnameSpec.dotLabels labels) "." = l :: labels.
Proof.
  induction labels as [|l' labels IH]; intros l Hv;
    cbn [forallb] in Hv; apply andb_true_iff in Hv; destruct Hv as [Hl Hls].
  - unfold Split. rewrite Split_aux_skip.
    + reflexivity.
    + apply (allBytes_impl (inClass DashLowerDigit)); [|now apply validLabel_bytes].
      intros c Hc. now rewrite DashLowerDigit_not_dot.
  - unfold Split. cbn [HostnameSpec.dotLabels]. rewrite Split_aux_skip.
    + cbn [Split_aux append]. cbn [Ascii.eqb Bool.eqb]. f_equal. now apply IH.
    + apply (allBytes_impl (inClass DashLowerDigit)); [|now apply validLabel_bytes].
      intros c Hc. now rewrite DashLowerDigit_not_dot.
Qed.

Lemma Join_labels (labels : list string) :
  forall l, Join (l :: labels) "." = l ++ HostnameSpec.dotLabels labels.
Proof.
  induction labels as [|l' labels IH]; intros l.
  - cbn. now rewrite append_nil_r.
  - change (Join (l :: l' :: labels) ".") with (l ++ String "." (Join (l' :: labels) ".")).
    now rewrite IH.
Qed.

(** *** The hostname expression, read as a set of names *)

Lemma compliant_labels (s : string) :
  MatchString validHostnameRegex s = true <->
  forallb validLabel (Split s ".") = true.
Proof.
  rewrite MatchString_hostname_labels. split.
  - intros (l & labels & -> & Hv). now rewrite Split_labels.
  - intros Hv. destruct (Split s ".") as [|l labels] eqn:Hs.
    + now apply Split_aux_nonempty in Hs.
    + exists l, labels. split; [|exact Hv].
      rewrite <- Join_labels, <- Hs. symmetry. apply Join_Split.
Qed.

Lemma compliant_bytes (s : string) :
  MatchString validHostnameRegex s = true ->
  allBytes HostnameSpec.hostByte s = true.
Proof.
  intros Hm. apply MatchString_hostname_labels in Hm.
  destruct Hm as (l & labels & -> & Hv).
  assert (Hlabel : forall x, validLabel x = true ->
                     allBytes HostnameSpec.hostByte x = true).
  { intros x Hx. apply (allBytes_impl (inClass DashLowerDigit));
      [|now apply validLabel_bytes].
    intros c Hc. unfold HostnameSpec.hostByte. now rewrite Hc. }
  cbn [forallb] in Hv. apply andb_true_iff in Hv. destruct Hv as [Hl Hls].
  rewrite allBytes_app, (Hlabel l Hl). cbn [andb].
  induction labels as [|x labels IH]; [reflexivity|].
  cbn [forallb] in Hls. apply andb_true_iff in Hls. destruct Hls as [Hx Hls].
  cbn [HostnameSpec.dotLabels allBytes].
  rewrite allBytes_app, (Hlabel x Hx), (IH Hls). reflexivity.
Qed.

(** X9.  [validHostnameRegex] accepts exactly the names that, split at the
    dots, are lower-case DNS labels: each one not empty, made of lower-case
    letters, digits and dashes, with no dash at either end.  Such a name is
    not empty and holds no other bytes than those and dots. *)
Theorem validHostnameRegex_labels (s : string) :
  MatchString validHostnameRegex s = forallb validLabel (Split s ".")
  /\ (MatchString validHostnameRegex s = true ->
        s <> EmptyString /\ allBytes HostnameSpec.hostByte s = true).
Proof.
  split.
  - apply eq_iff_eq_true. apply compliant_labels.
  - intros Hm. split; [|now apply compliant_bytes].
    intros ->. discriminate Hm.
Qed.

Lemma mapBytes_id (f : ascii -> ascii) (p : ascii -> bool) (s : string) :
  (forall c, p c = true -> f c = c) -> allBytes p s = true -> mapBytes f s = s.
Proof.
  intros Hf. induction s as [|c s IH]; [reflexivity|].
  cbn. rewrite andb_true_iff. intros [Hc Hs]. now rewrite (Hf c Hc), IH.
Qed.

Lemma compliant_unchanged `{Unicode} (s : string) :
  MatchString validHostnameRegex s = true ->
  k8sCompliantHostname s = (s, None).
Proof.
  intros Hm. pose proof (compliant_bytes s Hm) as Hb.
  unfold k8sCompliantHostname, ToLower, ReplaceAll.
  assert (Hascii : isASCII s = true).
  { unfold isASCII. apply (allBytes_impl HostnameSpec.hostByte); [|exact Hb].
    intros c Hc. now apply hostByte_plain. }
  rewrite Hascii.
  rewrite (mapBytes_id lowerByte HostnameSpec.hostByte s);
    [|intros c Hc; now apply hostByte_plain | exact Hb].
  rewrite (mapBytes_id _ HostnameSpec.hostByte s); [|  | exact Hb].
  - now rewrite Hm.
  - intros c Hc. apply hostByte_plain in Hc. destruct Hc as (_ & _ & Hu).
    now rewrite Hu.
Qed.

(** X10.  A name that is compliant already passes unchanged.  A name that
    [k8sCompliantHostname] returns is the input in lower case with dashes
    for underscores; it is made of lower-case DNS labels, holds only
    lower-case letters, digits, dashes and dots, and passes unchanged when
    given again: normalising is idempotent. *)
Theorem k8sCompliantHostname_idempotent `{Unicode} :
  (forall s, forallb validLabel (Split s ".") = true ->
             k8sCompliantHostname s = (s, None))
  /\ (forall input h e, k8sCompliantHostname input = (h, e) ->
        (e = None ->
           h = ReplaceAll (ToLower input) "_" "-"
           /\ forallb validLabel (Split h ".") = true
           /\ allBytes HostnameSpec.hostByte h = true
           /\ k8sCompliantHostname h = (h, None))
        /\ (e <> None -> h = EmptyString)).
Proof.
  split.
  - intros s Hv. apply compliant_unchanged. now apply compliant_labels.
  - intros input h e. unfold k8sCompliantHostname at 1.
    destruct (MatchString validHostnameRegex (ReplaceAll (ToLower input) "_" "-"))
      eqn:Hm; cbn [negb]; intros Hr; injection Hr as <- <-.
    + split; [intros _ | intros Hn; now elim Hn].
      split; [reflexivity|].
      split; [now apply compliant_labels|].
      split; [now apply compliant_bytes | now apply compliant_unchanged].
    + split; [discriminate | reflexivity].
Qed.

Lemma mapBytes_mapBytes (f g : ascii -> ascii) (s : string) :
  mapBytes f (mapBytes g s) = mapBytes (fun c => f (g c)) s.
Proof. induction s as [|c s IH]; cbn; [reflexivity | now rewrite IH]. Qed.

Lemma length_mapBytes (f : ascii -> ascii) (s : string) :
  String.length (mapBytes f s) = String.length s.
Proof. induction s as [|c s IH]; cbn; [reflexivity | now rewrite IH]. Qed.

Lemma first_byte_rejected (c : ascii) (s : string) :
  inClass LowerDigit c = false ->
  MatchString validHostnameRegex (String c s) = false.
Proof.
  intros Hc. apply not_true_is_false. intros Hm.
  cbn [MatchString validHostnameRegex labelRegex deriv nullable andb] in Hm.
  rewrite Hc in Hm.
  apply MatchString_Seq in Hm. destruct Hm as (s1 & _ & _ & Hm & _).
  apply MatchString_Seq in Hm. destruct Hm as (s2 & _ & _ & Hm & _).
  now rewrite MatchString_NoMatch in Hm.
Qed.

(** X11.  For a name of ASCII bytes the outcome is decided by the labels of the
    name with its upper-case letters lowered and its underscores turned to
    dashes, a name as long as the input: if they are lower-case DNS labels
    that name is returned, and else the empty name with an error that
    quotes the input.  The empty name is rejected, and so is every name
    whose first byte is not a letter or a digit. *)
Theorem k8sCompliantHostname_ascii `{Unicode} (input : string) :
  isASCII input = true ->
  let h := mapBytes HostnameSpec.normByte input in
  k8sCompliantHostname input =
    (if forallb validLabel (Split h ".") then (h, None)
     else (EmptyString,
           Some (errorString
                   ("failed to generate a Kubernetes compliant hostname for "
                      ++ input))))
  /\ String.length h = String.length input
  /\ (input = EmptyString -> snd (k8sCompliantHostname input) <> None)
  /\ (forall c rest, input = String c rest ->
        inClass LowerDigit (lowerByte c) = false ->
        snd (k8sCompliantHostname input) <> None).
Proof.
  intros Hascii. cbv zeta.
  assert (Hh : ReplaceAll (ToLower input) "_" "-"
               = mapBytes HostnameSpec.normByte input).
  { unfold ToLower, ReplaceAll. rewrite Hascii, mapBytes_mapBytes. reflexivity. }
  assert (Hk : k8sCompliantHostname input =
               (if forallb validLabel (Split (mapBytes HostnameSpec.normByte input) ".")
                then (mapBytes HostnameSpec.normByte input, None)
                else (EmptyString,
                      Some (errorString
                              ("failed to generate a Kubernetes compliant hostname for "
                                 ++ input))))).
  { unfold k8sCompliantHostname. rewrite Hh.
    rewrite (eq_true_iff_eq _ _ (compliant_labels _)).
    now destruct (forallb validLabel _). }
  split; [exact Hk|]. split; [apply length_mapBytes|]. split.
  - intros ->. cbn. discriminate.
  - intros c rest -> Hc. rewrite Hk.
    rewrite <- (eq_true_iff_eq _ _ (compliant_labels _)).
    cbn [mapBytes]. rewrite first_byte_rejected; [cbn; discriminate|].
    unfold HostnameSpec.normByte.
    destruct (Ascii.eqb_spec (lowerByte c) "_"%char) as [_|_];
      [reflexivity | exact Hc].
Qed.

Lemma k8sCompliantHostname_labels `{Unicode} (input h : string) :
  k8sCompliantHostname input = (h, None) ->
  forallb validLabel (Split h ".") = true.
Proof.
  unfold k8sCompliantHostname.
  destruct (MatchString validHostnameRegex (ReplaceAll (ToLower input) "_" "-"))
    eqn:Hm; cbn [negb]; intros Hr; [|discriminate Hr].
  injection Hr as <-. now apply compliant_labels.
Qed.

Lemma k8sCompliantHostname_ascii_witness :
  isASCII "My_Node-1.Example" = true
  /\ @k8sCompliantHostname identityUnicode "My_Node-1.Example"
     = ("my-node-1.example", None).
Proof.
  split; [reflexivity|].
  destruct (@k8sCompliantHostname_ascii identityUnicode "My_Node-1.Example" eq_refl)
    as [Hk _].
  rewrite Hk. reflexivity.
Defined.

End HostnameFacts.

(** ** The bootstrapper's Kubernetes package *)

Ltac unfold_kube E :=
  cbv [Kubernetes.InitCluster Kubernetes.JoinCluster Kubernetes.StartKubelet
       Kubernetes.runError Kubernetes.InitCluster_body
       Kubernetes.JoinCluster_body Kubernetes.StartKubelet_body
       Kubernetes.bind Kubernetes.invoke Kubernetes.orReturn Kubernetes.ret
       Kubernetes.panic Kubernetes.setupK8sComponentsConfigMap
       Kubernetes.setupInternalConfigMap Kubernetes.patchFirstNodePodCIDR
       Kubernetes.setAPIServerEndpoint Kubernetes.firstCACertHash] in E;
  cbn [fst snd app Kubernetes.history Kubernetes.args
       JoinService.CACertHashes JoinService.Token
       JoinService.APIServerEndpoint JoinService.UnsafeSkipCAVerification] in E.

Ltac split_kube E :=
  repeat
    (lazymatch type of E with
     | context [match snd ?r with _ => _ end] =>
         destruct r as [? [?|]] eqn:?
     | context [match ?o with Some _ => _ | None => _ end] =>
         destruct o eqn:?
     | context [if ?b then _ else _] =>
         destruct b eqn:?
     | context [match ?l with nil => _ | cons _ _ => _ end] =>
         destruct l eqn:?
     end;
     cbn [fst snd app Kubernetes.history Kubernetes.args
          JoinService.CACertHashes JoinService.Token
          JoinService.APIServerEndpoint JoinService.UnsafeSkipCAVerification] in E).

Ltac kube_paths E :=
  unfold_kube E; split_kube E;
  match type of E with (_, _) = (_, _) => injection E as <- <- end.

Ltac kube_results :=
  cbn [fst snd];
  repeat match goal with
         | Heq : ?t = (_, _) |- context [?t] => rewrite Heq; cbn [fst snd]
         end.

Ltac kube_event_in :=
  cbn [In]; intros ?;
  repeat match goal with
         | Ho : _ \/ _ |- _ => destruct Ho
         | Hf : False |- _ => destruct Hf
         | Hev : Kubernetes.Build_Event _ _ = Kubernetes.Build_Event _ _ |- _ =>
             first [discriminate Hev | injection Hev as ? ?; subst]
         end.

Section KubernetesFacts.
Import Hostname Kubernetes.
Context `{Externals}.

Local Existing Instance unicode.

(** X12.  The configuration [JoinCluster] marshals: it is built for an external
    cloud provider on Azure and GCP only; its API server endpoint is the
    load balancer's, whatever endpoint the caller's arguments held; token
    and CA certificate hash are the caller's, the hash its first one; the
    node name is the instance name made compliant, a name of lower-case
    DNS labels; the node is set up as control plane exactly for that
    role. *)
Theorem JoinCluster_configuration (k : KubeWrapper)
    (a : option JoinService.BootstrapTokenDiscovery) (peerRole : Role)
    (k8sComponents : Components) (cfg : KubeadmJoinYAML) (e : option error) :
  let instance := fst (Self k) in
  let lb := fst (GetLoadBalancerEndpoint k) in
  let nodeName := fst (k8sCompliantHostname (Name instance)) in
  In {| call := CallJoinMarshal cfg; err := e |}
     (history (fst (JoinCluster k a peerRole k8sComponents))) ->
  exists a0 hash0 rest,
    a = Some a0 /\ JoinService.CACertHashes a0 = hash0 :: rest
    /\ cfg = {| joinExternalCloudProvider := providerIs k Azure || providerIs k GCP;
                joinSetters :=
                  ([SetAPIServerEndpoint (JoinHostPort (fst lb) (snd lb));
                    SetToken (JoinService.Token a0);
                    AppendDiscoveryTokenCaCertHash hash0;
                    SetNodeIP (VPCIP instance); SetNodeName nodeName;
                    SetProviderID (ProviderID instance)]
                   ++ (if Role_eqb peerRole ControlPlane
                       then [SetControlPlane (VPCIP instance)] else []))%list |}
    /\ forallb validLabel (Split nodeName ".") = true
    /\ (In (SetControlPlane (VPCIP instance)) (joinSetters cfg)
        <-> peerRole = ControlPlane).
Proof.
  cbv zeta.
  destruct (JoinCluster k a peerRole k8sComponents) as [st out] eqn:E.
  cbn [fst snd].
  kube_paths E; cbn [fst snd history]; kube_results.
  all: kube_event_in.
  all: do 3 eexists; split; [reflexivity|]; split; [eassumption|].
  all: split; [reflexivity|].
  all: split; [eapply k8sCompliantHostname_labels; eassumption|].
  all: cbn [joinSetters app In]; destruct peerRole; cbn [Role_eqb In];
       split; intros Hx; try reflexivity; try discriminate;
       repeat (destruct Hx as [Hx|Hx]; try discriminate Hx); tauto.
Qed.

(** X13.  [JoinCluster] indexes the first CA certificate hash without a guard:
    once it gets as far as the join configuration it panics on arguments
    without a hash (and on a nil pointer), and returns otherwise; when it
    does not get that far it returns an error. *)
Theorem JoinCluster_needs_CACertHash (k : KubeWrapper)
    (a : option JoinService.BootstrapTokenDiscovery) (peerRole : Role)
    (k8sComponents : Components) :
  let out := snd (JoinCluster k a peerRole k8sComponents) in
  (reachesJoinConfiguration k k8sComponents ->
     match a with
     | None => out = Panicked "invalid memory address or nil pointer dereference"
     | Some a0 =>
         match JoinService.CACertHashes a0 with
         | [] => out = Panicked "index out of range [0] with length 0"
         | _ :: _ => exists r, out = Returned r
         end
     end)
  /\ (~ reachesJoinConfiguration k k8sComponents ->
        exists e, out = Returned (Some e)).
Proof.
  cbv zeta. unfold reachesJoinConfiguration.
  destruct (JoinCluster k a peerRole k8sComponents) as [st out] eqn:E.
  cbn [fst snd].
  kube_paths E; cbn [fst snd]; kube_results.
  all: split;
    [ intros (H1 & H2 & H3 & H4); try discriminate;
      repeat match goal with
             | Heq : JoinService.CACertHashes _ = _ |- _ => rewrite Heq
             end; first [reflexivity | eexists; reflexivity]
    | intros Hn; first [eexists; reflexivity | exfalso; apply Hn; tauto] ].
Qed.

(** X14.  [JoinCluster] writes through the pointer it is given: once the load
    balancer endpoint is known, the caller's arguments hold that endpoint
    in place of the one they came with, also when the join then fails or
    panics; before that they are untouched.  Token and CA certificate
    hashes are never changed. *)
Theorem JoinCluster_overwrites_endpoint (k : KubeWrapper)
    (a0 : JoinService.BootstrapTokenDiscovery) (peerRole : Role)
    (k8sComponents : Components) :
  let after := args (fst (JoinCluster k (Some a0) peerRole k8sComponents)) in
  let lb := fst (GetLoadBalancerEndpoint k) in
  exists a1,
    after = Some a1
    /\ JoinService.Token a1 = JoinService.Token a0
    /\ JoinService.CACertHashes a1 = JoinService.CACertHashes a0
    /\ JoinService.UnsafeSkipCAVerification a1 =
         JoinService.UnsafeSkipCAVerification a0
    /\ (reachesJoinConfiguration k k8sComponents ->
          JoinService.APIServerEndpoint a1 = JoinHostPort (fst lb) (snd lb))
    /\ (~ reachesJoinConfiguration k k8sComponents -> a1 = a0).
Proof.
  cbv zeta. unfold reachesJoinConfiguration.
  destruct (JoinCluster k (Some a0) peerRole k8sComponents) as [st out] eqn:E.
  cbn [fst snd].
  kube_paths E; cbn [fst snd args]; kube_results.
  all: eexists; split; [reflexivity|]; repeat split.
  all: try (intros (H1 & H2 & H3 & H4); discriminate).
  all: try (intros Hn; exfalso; apply Hn; tauto).
Qed.

(** X15.  Etcd I/O is prioritized by [JoinCluster] only on a control-plane node
    and only after the node joined: the call is in the history exactly when
    the role is control plane and [JoinCluster] returns without error, and
    a return without error means the join call was made and succeeded. *)
Theorem JoinCluster_prioritizes_etcd (k : KubeWrapper)
    (a : option JoinService.BootstrapTokenDiscovery) (peerRole : Role)
    (k8sComponents : Components) :
  let tr := history (fst (JoinCluster k a peerRole k8sComponents)) in
  let out := snd (JoinCluster k a peerRole k8sComponents) in
  (In {| call := CallPrioritizeIO; err := None |} tr
   <-> peerRole = ControlPlane /\ out = Returned None)
  /\ (out = Returned None ->
        exists joinConfig,
          In {| call := CallJoinCluster joinConfig; err := None |} tr).
Proof.
  cbv zeta.
  destruct (JoinCluster k a peerRole k8sComponents) as [st out] eqn:E.
  cbn [fst snd].
  kube_paths E; cbn [fst snd history].
  all: split; [split|].
  all: try (kube_event_in; fail).
  all: try (intros [_ Hr]; discriminate Hr).
  all: try (intros Hr; discriminate Hr).
  all: try (intros _; eexists; cbn [In]; intuition auto; fail).
  all: try (intros [Hrole _]; subst peerRole; discriminate).
  all: try (intros _; split; [now destruct peerRole | reflexivity]).
  all: cbn [In]; intuition auto.
Qed.

(** X16.  When the join itself fails, the error [JoinCluster] returns carries
    the whole marshalled join configuration in its message, together with
    the text of the cause. *)
Theorem JoinCluster_error_holds_configuration (k : KubeWrapper)
    (a : option JoinService.BootstrapTokenDiscovery) (peerRole : Role)
    (k8sComponents : Components) (joinConfig : bytes) (cause : error) :
  In {| call := CallJoinCluster joinConfig; err := Some cause |}
     (history (fst (JoinCluster k a peerRole k8sComponents))) ->
  exists e,
    snd (JoinCluster k a peerRole k8sComponents) = Returned (Some e)
    /\ Contains (Error e) (string_of_list_byte joinConfig) = true
    /\ Contains (Error e) (Error cause) = true.
Proof.
  destruct (JoinCluster k a peerRole k8sComponents) as [st out] eqn:E.
  cbn [fst snd].
  kube_paths E; cbn [fst snd history].
  all: kube_event_in.
  all: eexists; split; [reflexivity|]; unfold joinError; cbn [Error].
  all: split.
  all: try (apply Contains_skip, Contains_here).
  all: apply Contains_skip, Contains_skip, Contains_skip, Contains_here.
Qed.

(** X17.  [InitCluster] never panics: the first alias IP range is read behind
    a length check.  The pod CIDR of the first node is patched on GCP only,
    with the first alias range of the instance or, when it has none, the
    empty string; on GCP a successful run has made that call.  An error
    always comes with a nil kubeconfig. *)
Theorem InitCluster_total (k : KubeWrapper) (versionString clusterName : string)
    (conformanceMode : bool) (kubernetesComponents : Components)
    (apiServerCertSANs : list string) (serviceCIDR : string) :
  let run := InitCluster k versionString clusterName conformanceMode
               kubernetesComponents apiServerCertSANs serviceCIDR in
  let firstRange := hd EmptyString (AliasIPRanges (fst (Self k))) in
  (exists kubeConfig e, snd run = Returned (kubeConfig, e)
                        /\ (e <> None -> kubeConfig = []))
  /\ (forall cidr e,
        In {| call := CallPatchFirstNodePodCIDR cidr; err := e |} (fst run) ->
        providerIs k GCP = true /\ cidr = firstRange
        /\ e = PatchFirstNodePodCIDR k cidr)
  /\ (forall kubeConfig, snd run = Returned (kubeConfig, None) ->
        providerIs k GCP = true ->
        In {| call := CallPatchFirstNodePodCIDR firstRange; err := None |} (fst run)).
Proof.
  cbv zeta.
  destruct (InitCluster k versionString clusterName conformanceMode
              kubernetesComponents apiServerCertSANs serviceCIDR)
    as [tr out] eqn:E.
  cbn [fst snd].
  kube_paths E; cbn [fst snd]; kube_results.
  all: split; [do 2 eexists; split; [reflexivity|]; intros Hn;
               first [reflexivity | now elim Hn]|].
  all: repeat match goal with
              | Heq : AliasIPRanges _ = _ |- _ => rewrite Heq
              end; cbn [hd].
  all: split; [intros cidr' e'; kube_event_in; repeat split;
               first [reflexivity | congruence]|].
  all: intros kubeConfig Hr Hgcp; try discriminate Hr; try discriminate Hgcp.
  all: cbn [In]; intuition auto.
Qed.

(** X18.  A run of [InitCluster] that succeeds returns the kubeconfig kubeadm
    init produced for the marshalled configuration and the compliant node
    name, the VPC IP being the one valid IP if the instance has one.  It
    has made its calls in this order, none of them failing: install the
    components, read the metadata and the load balancer endpoint, marshal,
    kubeadm init, prioritize etcd I/O, initialize the client, wait for the
    API, build and create the components ConfigMap, patch the pod CIDR (on
    GCP), annotate the node with the name of that ConfigMap, create the
    internal ConfigMap. *)
Theorem InitCluster_success (k : KubeWrapper) (versionString clusterName : string)
    (conformanceMode : bool) (kubernetesComponents : Components)
    (apiServerCertSANs : list string) (serviceCIDR : string) (kubeConfig : bytes) :
  let run := InitCluster k versionString clusterName conformanceMode
               kubernetesComponents apiServerCertSANs serviceCIDR in
  let instance := fst (Self k) in
  let nodeName := fst (k8sCompliantHostname (Name instance)) in
  let validIPs := if String.eqb (VPCIP instance) EmptyString then []
                  else [ParseIP (VPCIP instance)] in
  let cm := fst (ConstructK8sComponentsCM kubernetesComponents versionString) in
  snd run = Returned (kubeConfig, None) ->
  exists cfg initConfigYAML,
    InitYAML_Marshal k cfg = (initConfigYAML, None)
    /\ kubeConfig = fst (clusterUtil_InitCluster k initConfigYAML nodeName
                           clusterName validIPs conformanceMode)
    /\ map call (fst run) =
         ([CallInstallComponents; CallSelf; CallGetLoadBalancerEndpoint;
           CallInitMarshal cfg;
           CallInitCluster initConfigYAML nodeName clusterName conformanceMode;
           CallPrioritizeIO; CallClientInitialize kubeConfig; CallWait;
           CallConstructK8sComponentsCM versionString; CallCreateConfigMap cm]
          ++ (if providerIs k GCP
              then [CallPatchFirstNodePodCIDR
                      (hd EmptyString (AliasIPRanges instance))]
              else [])
          ++ [CallAnnotateNode nodeName NodeKubernetesComponentsAnnotationKey
                (ObjectMeta_Name cm);
              CallCreateConfigMap internalConfigMap])%list
    /\ forallb (fun ev => match err ev with None => true | Some _ => false end)
         (fst run) = true.
Proof.
  cbv zeta.
  destruct (InitCluster k versionString clusterName conformanceMode
              kubernetesComponents apiServerCertSANs serviceCIDR)
    as [tr out] eqn:E.
  cbn [fst snd]. intros Hr.
  kube_paths E; cbn [fst snd] in *; try discriminate Hr; kube_results.
  all: injection Hr as <-.
  all: repeat match goal with
              | Heq : AliasIPRanges _ = _ |- _ => rewrite Heq
              end; cbn [hd].
  all: do 2 eexists; split; [eassumption|].
  all: split; [kube_results; reflexivity|].
  all: split; reflexivity.
Qed.

(** X19.  The configuration [InitCluster] marshals: it is built for an external
    cloud provider on Azure, GCP and AWS; the certificate SANs are the
    node's VPC IP followed by the SANs it was given; the node name is the
    instance name made compliant, a name of lower-case DNS labels; the
    control-plane endpoint is the host of the load balancer endpoint. *)
Theorem InitCluster_configuration (k : KubeWrapper) (versionString clusterName : string)
    (conformanceMode : bool) (kubernetesComponents : Components)
    (apiServerCertSANs : list string) (serviceCIDR : string)
    (cfg : KubeadmInitYAML) (e : option error) :
  let instance := fst (Self k) in
  let nodeName := fst (k8sCompliantHostname (Name instance)) in
  In {| call := CallInitMarshal cfg; err := e |}
     (fst (InitCluster k versionString clusterName conformanceMode
             kubernetesComponents apiServerCertSANs serviceCIDR)) ->
  cfg = {| initExternalCloudProvider :=
             providerIs k Azure || providerIs k GCP || providerIs k AWS;
           initK8sVersion := versionString;
           initSetters :=
             [InitSetNodeIP (VPCIP instance); InitSetClusterName clusterName;
              InitSetCertSANs (VPCIP instance :: apiServerCertSANs);
              InitSetNodeName nodeName;
              InitSetProviderID (ProviderID instance);
              InitSetControlPlaneEndpoint (fst (fst (GetLoadBalancerEndpoint k)));
              InitSetServiceSubnet serviceCIDR] |}
  /\ forallb validLabel (Split nodeName ".") = true.
Proof.
  cbv zeta.
  destruct (InitCluster k versionString clusterName conformanceMode
              kubernetesComponents apiServerCertSANs serviceCIDR)
    as [tr out] eqn:E.
  cbn [fst snd].
  kube_paths E; cbn [fst snd]; kube_results.
  all: kube_event_in.
  all: split; [reflexivity | eapply k8sCompliantHostname_labels; eassumption].
Qed.

Lemma InitCluster_flag (k : KubeWrapper) (versionString clusterName : string)
    (conformanceMode : bool) (kubernetesComponents : Components)
    (apiServerCertSANs : list string) (serviceCIDR : string)
    (cfg : KubeadmInitYAML) (e : option error) :
  In {| call := CallInitMarshal cfg; err := e |}
     (fst (InitCluster k versionString clusterName conformanceMode
             kubernetesComponents apiServerCertSANs serviceCIDR)) ->
  initExternalCloudProvider cfg =
  providerIs k Azure || providerIs k GCP || providerIs k AWS.
Proof.
  destruct (InitCluster k versionString clusterName conformanceMode
              kubernetesComponents apiServerCertSANs serviceCIDR)
    as [tr out] eqn:E.
  cbn [fst snd].
  kube_paths E; cbn [fst snd].
  all: kube_event_in; reflexivity.
Qed.

Lemma JoinCluster_flag (k : KubeWrapper)
    (a : option JoinService.BootstrapTokenDiscovery) (peerRole : Role)
    (k8sComponents : Components) (cfg : KubeadmJoinYAML) (e : option error) :
  In {| call := CallJoinMarshal cfg; err := e |}
     (history (fst (JoinCluster k a peerRole k8sComponents))) ->
  joinExternalCloudProvider cfg = providerIs k Azure || providerIs k GCP.
Proof.
  destruct (JoinCluster k a peerRole k8sComponents) as [st out] eqn:E.
  cbn [fst snd].
  kube_paths E; cbn [fst snd history].
  all: kube_event_in; reflexivity.
Qed.

(** X20.  The first node and the joining nodes of one cluster are configured
    alike for the external cloud provider, except on AWS: there
    [InitCluster] builds its configuration for an external cloud provider
    and [JoinCluster] does not. *)
Theorem external_cloud_provider_differs_on_AWS (k : KubeWrapper)
    (versionString clusterName : string) (conformanceMode : bool)
    (components : Components) (apiServerCertSANs : list string)
    (serviceCIDR : string) (a : option JoinService.BootstrapTokenDiscovery)
    (peerRole : Role)
    (initCfg : KubeadmInitYAML) (joinCfg : KubeadmJoinYAML)
    (ei ej : option error) :
  In {| call := CallInitMarshal initCfg; err := ei |}
     (fst (InitCluster k versionString clusterName conformanceMode components
             apiServerCertSANs serviceCIDR)) ->
  In {| call := CallJoinMarshal joinCfg; err := ej |}
     (history (fst (JoinCluster k a peerRole components))) ->
  initExternalCloudProvider initCfg =
    joinExternalCloudProvider joinCfg || providerIs k AWS
  /\ (FromString (cloudProvider k) = AWS ->
        initExternalCloudProvider initCfg = true
        /\ joinExternalCloudProvider joinCfg = false)
  /\ (FromString (cloudProvider k) <> AWS ->
        initExternalCloudProvider initCfg = joinExternalCloudProvider joinCfg).
Proof.
  intros Hi Hj. apply InitCluster_flag in Hi. apply JoinCluster_flag in Hj.
  rewrite Hi, Hj. unfold providerIs.
  destruct (FromString (cloudProvider k)); cbn;
    (split; [reflexivity|];
     split; [intros Hp; first [discriminate Hp | split; reflexivity]
            | intros Hp; first [reflexivity | now elim Hp]]).
Qed.

End KubernetesFacts.

Section KubernetesWitnesses.
Import Hostname Kubernetes KubeStubs.

Ltac in_history := vm_compute; repeat (first [left; reflexivity | right]).

Lemma JoinCluster_configuration_witness :
  let cfg :=
    {| joinExternalCloudProvider := false;
       joinSetters :=
         [SetAPIServerEndpoint "192.0.2.1:6443";
          SetToken "abcdef.0123456789abcdef";
          AppendDiscoveryTokenCaCertHash "sha256:1f0e";
          SetNodeIP "192.0.2.11"; SetNodeName "node-1";
          SetProviderID "gcp:///project/zone/node-1";
          SetControlPlane "192.0.2.11"] |} in
  In {| call := CallJoinMarshal cfg; err := None |}
     (history (fst (@JoinCluster stubExternals (stubWrapper "aws" None)
                      (Some stubArgs) ControlPlane [])))
  /\ forallb validLabel (Split "node-1" ".") = true.
Proof.
  cbv zeta.
  match goal with |- ?A /\ _ => assert (Hin : A) by in_history end.
  split; [exact Hin|].
  destruct (@JoinCluster_configuration stubExternals _ _ _ _ _ _ Hin)
    as (a0 & hash0 & rest & _ & _ & _ & Hname & _).
  exact Hname.
Defined.

Lemma JoinCluster_error_holds_configuration_witness :
  let yaml := list_byte_of_string "token: abcdef.0123456789abcdef" in
  let cause := errorString "kubeadm join failed" in
  In {| call := CallJoinCluster yaml; err := Some cause |}
     (history (fst (@JoinCluster stubExternals (stubWrapper "gcp" (Some cause))
                      (Some stubArgs) Worker [])))
  /\ exists e,
       snd (@JoinCluster stubExternals (stubWrapper "gcp" (Some cause))
              (Some stubArgs) Worker []) = Returned (Some e)
       /\ Contains (Error e) (string_of_list_byte yaml) = true
       /\ Contains (Error e) (Error cause) = true.
Proof.
  cbv zeta.
  match goal with |- ?A /\ _ => assert (Hin : A) by in_history end.
  split; [exact Hin|].
  exact (@JoinCluster_error_holds_configuration stubExternals _ _ _ _ _ _ Hin).
Defined.

Lemma InitCluster_success_witness :
  let run := @InitCluster stubExternals (stubWrapper "gcp" None)
               "v1.30.0" "cluster" false [] ["san.example"] "10.96.0.0/12" in
  snd run = Returned (list_byte_of_string "kubeconfig", None)
  /\ length (fst run) = 13.
Proof.
  cbv zeta. split; [reflexivity|].
  destruct (@InitCluster_success stubExternals (stubWrapper "gcp" None)
              "v1.30.0" "cluster" false [] ["san.example"] "10.96.0.0/12"
              _ eq_refl) as (cfg & yaml & _ & _ & Hcalls & _).
  rewrite <- (length_map call), Hcalls. reflexivity.
Defined.

Lemma InitCluster_configuration_witness :
  let cfg :=
    {| initExternalCloudProvider := true;
       initK8sVersion := "v1.30.0";
       initSetters :=
         [InitSetNodeIP "192.0.2.11"; InitSetClusterName "cluster";
          InitSetCertSANs ["192.0.2.11"; "san.example"];
          InitSetNodeName "node-1";
          InitSetProviderID "gcp:///project/zone/node-1";
          InitSetControlPlaneEndpoint "192.0.2.1";
          InitSetServiceSubnet "10.96.0.0/12"] |} in
  In {| call := CallInitMarshal cfg; err := None |}
     (fst (@InitCluster stubExternals (stubWrapper "aws" None)
             "v1.30.0" "cluster" false [] ["san.example"] "10.96.0.0/12"))
  /\ forallb validLabel (Split "node-1" ".") = true.
Proof.
  cbv zeta.
  match goal with |- ?A /\ _ => assert (Hin : A) by in_history end.
  split; [exact Hin|].
  exact (proj2 (@InitCluster_configuration stubExternals _ _ _ _ _ _ _ _ _ Hin)).
Defined.

Lemma external_cloud_provider_differs_on_AWS_witness :
  exists initCfg joinCfg,
    In {| call := CallInitMarshal initCfg; err := None |}
       (fst (@InitCluster stubExternals (stubWrapper "aws" None)
               "v1.30.0" "cluster" false [] [] "10.96.0.0/12"))
    /\ In {| call := CallJoinMarshal joinCfg; err := None |}
         (history (fst (@JoinCluster stubExternals (stubWrapper "aws" None)
                          (Some stubArgs) Worker [])))
    /\ initExternalCloudProvider initCfg = true
    /\ joinExternalCloudProvider joinCfg = false.
Proof.
  do 2 eexists.
  match goal with
  | |- ?A /\ ?B /\ _ =>
      assert (Hi : A) by (vm_compute; do 3 right; left; reflexivity);
      assert (Hj : B) by (vm_compute; do 3 right; left; reflexivity)
  end.
  split; [exact Hi|]. split; [exact Hj|].
  destruct (@external_cloud_provider_differs_on_AWS stubExternals _ _ _ _ _ _ _ _ _
              _ _ _ _ Hi Hj) as (_ & Haws & _).
  apply Haws. reflexivity.
Defined.

End KubernetesWitnesses.
